(** * Spider Solitaire: the rules engine and the game controller

    A shallow embedding of [types.ts] and of the [App] component (its
    handlers [initGame], [handleDeal], [handleCardClick] and
    [handleEmptyColumnClick]) together with the five functions the
    component imports from [utils/gameLogic].

    Conventions.
    - A JavaScript [number] that only ever holds an integer is a [Z].
    - An array is a [list]; index 0 is the bottom card of a column and the
      last element is its top card.  Array indices handed to the handlers by
      the user interface are [nat].
    - [Card] objects are records.  The source sets [isFaceUp] in place on
      objects that the previous [GameState] still references; the previous
      state is dropped by [setGameState], and a card object occurs once in a
      state, so that a handler is modelled as a function from the state it
      reads to the state it installs. *)

From stdpp Require Import base numbers list strings pretty.

Open Scope Z_scope.

(** ** types.ts *)

Inductive Suit := Spades | Hearts | Diamonds | Clubs.

#[global] Instance Suit_eq_dec : EqDecision Suit.
Proof. solve_decision. Defined.

(** The string literal type ['A' | '2' | ... | 'K']. *)
Inductive Rank := RA | R2 | R3 | R4 | R5 | R6 | R7 | R8 | R9 | R10 | RJ | RQ | RK.

#[global] Instance Rank_eq_dec : EqDecision Rank.
Proof. solve_decision. Defined.

Definition RANK_VALUES (r : Rank) : Z :=
  match r with
  | RA => 1 | R2 => 2 | R3 => 3 | R4 => 4 | R5 => 5 | R6 => 6 | R7 => 7
  | R8 => 8 | R9 => 9 | R10 => 10 | RJ => 11 | RQ => 12 | RK => 13
  end.

Record Card := mkCard {
  id : string;
  suit : Suit;
  rank : Rank;
  isFaceUp : bool
}.

#[global] Instance Card_eq_dec : EqDecision Card.
Proof. solve_decision. Defined.

Abbreviation Column := (list Card).
Abbreviation Tableau := (list (list Card)).

Record GameState := mkGameState {
  tableau : Tableau;
  stock : list Card;
  foundations : Z;
  moves : Z;
  score : Z
}.

(** [card.isFaceUp = true] *)
Definition setFaceUp (c : Card) : Card :=
  {| id := id c; suit := suit c; rank := rank c; isFaceUp := true |}.

(** [if (col.length > 0) col[col.length - 1].isFaceUp = true], the statement
    both move handlers run on the shortened source column. *)
Definition exposeTop (col : Column) : Column :=
  match length col with
  | O => col
  | S n => alter setFaceUp n col
  end.

(** ** utils/gameLogic *)

Module GameLogic.

(** Modelled from the spec: [isValidMove] of utils/gameLogic, whose source is
    not available.  True iff the destination exists and the bottom card of
    the moving sequence has rank value exactly one less than the
    destination's; suits are not compared. *)
Definition isValidMove (movingCards : list Card) (destCard : option Card) : bool :=
  match destCard, movingCards with
  | Some dest, bottom :: _ =>
      bool_decide (RANK_VALUES (rank bottom) = RANK_VALUES (rank dest) - 1)
  | _, _ => false
  end.

(** One link of a run: [next] lies directly on [prev]. *)
Definition continuesRun (prev next : Card) : bool :=
  bool_decide (suit next = suit prev)
  && bool_decide (RANK_VALUES (rank next) = RANK_VALUES (rank prev) - 1).

Fixpoint isRunFrom (prev : Card) (rest : list Card) : bool :=
  match rest with
  | [] => true
  | next :: rest' => isFaceUp next && continuesRun prev next && isRunFrom next rest'
  end.

(** Modelled from the spec: [canMoveSequence] of utils/gameLogic, whose source
    is not available.  True iff the sequence is non-empty, all of it is face
    up, and consecutive cards are of one suit with rank values descending by
    one. *)
Definition canMoveSequence (cards : list Card) : bool :=
  match cards with
  | [] => false
  | first :: rest => isFaceUp first && isRunFrom first rest
  end.

(** King down to Ace. *)
Definition kingToAce : list Rank :=
  [RK; RQ; RJ; R10; R9; R8; R7; R6; R5; R4; R3; R2; RA].

(** The cards form a complete set: ranks King to Ace without a gap, one suit,
    all face up. *)
Definition isCompleteSet (cards : list Card) : bool :=
  match cards with
  | [] => false
  | king :: _ =>
      bool_decide (rank <$> cards = kingToAce)
      && forallb isFaceUp cards
      && forallb (fun c => bool_decide (suit c = suit king)) cards
  end.

Record CheckResult := mkCheckResult {
  newColumn : Column;
  removed : bool
}.

(** Modelled from the spec: [checkAndRemoveCompleteSet] of utils/gameLogic,
    whose source is not available.  When the last 13 cards of the column are
    a complete set they are cut off, the card that becomes the top is turned
    face up and [removed] is true; otherwise the column comes back
    unchanged with [removed] false. *)
Definition checkAndRemoveCompleteSet (column : Column) : CheckResult :=
  let n := length column in
  if bool_decide (13 <= n)%nat && isCompleteSet (drop (n - 13) column)
  then {| newColumn := exposeTop (take (n - 13) column); removed := true |}
  else {| newColumn := column; removed := false |}.

(** Modelled from the spec: the column sizes of [dealInitial], six cards for
    the first four columns and five for the other six. *)
Definition columnSizes : list nat := [6; 6; 6; 6; 5; 5; 5; 5; 5; 5]%nat.

Record Deal := mkDeal {
  dealtTableau : Tableau;
  remainingStock : list Card
}.

(** Modelled from the spec: [dealInitial] of utils/gameLogic, whose source is
    not available.  The first 54 cards of the deck fill the ten columns in
    order, the top card of every column is turned face up, and the other
    cards are the stock in deck order. *)
Definition dealInitial (deck : list Card) : Deal :=
  {| dealtTableau := exposeTop <$> reshape columnSizes deck;
     remainingStock := drop 54 deck |}.

End GameLogic.

Import GameLogic.

(** ** App: the component state *)

(** [{ colIndex: number; cardIndex: number }] *)
Record Selection := mkSelection {
  colIndex : nat;
  cardIndex : nat
}.

(** The [useState] cells the handlers read and write.  [difficulty] only
    selects the deck [createDeck] builds and is left out: [initGame] is given
    the shuffled deck. *)
Record AppState := mkAppState {
  gameState : option GameState;
  selectedCards : option Selection;
  gameWon : bool
}.

Definition setGameState (gs : GameState) (s : AppState) : AppState :=
  {| gameState := Some gs; selectedCards := selectedCards s; gameWon := gameWon s |}.

Definition setSelectedCards (sel : option Selection) (s : AppState) : AppState :=
  {| gameState := gameState s; selectedCards := sel; gameWon := gameWon s |}.

Definition setGameWon (b : bool) (s : AppState) : AppState :=
  {| gameState := gameState s; selectedCards := selectedCards s; gameWon := b |}.

(** What a handler call does: it returns, leaving a state and the messages it
    showed with [alert], or it stops on a [TypeError] (a member of
    [undefined] was read). *)
Inductive Outcome :=
| Returns (s : AppState) (alerts : list string)
| TypeError.

(** The state of the component before its effect has run [initGame]. *)
Definition mounted : AppState :=
  {| gameState := None; selectedCards := None; gameWon := false |}.

(** [initGame], given the deck [createDeck] returned. *)
Definition initGame (deck : list Card) : AppState :=
  let d := dealInitial deck in
  {| gameState := Some {| tableau := dealtTableau d;
                          stock := remainingStock d;
                          foundations := 0;
                          moves := 0;
                          score := 500 |};
     selectedCards := None;
     gameWon := false |}.

(** ** App: handleDeal *)

Definition dealAlert : string :=
  "All columns must have at least one card before dealing from the stock.".

(** The loop [for (let i = 0; i < 10; i++)] with [n] rounds left: pop the
    stock; a popped card is turned face up and pushed on column [i].
    [newTableau[i].push] on a missing column is a [TypeError] ([None]). *)
Fixpoint dealLoop (n i : nat) (newStock : list Card) (newTableau : Tableau)
  : option (list Card * Tableau) :=
  match n with
  | O => Some (newStock, newTableau)
  | S n' =>
      match last newStock with
      | Some card =>
          match newTableau !! i with
          | Some col =>
              dealLoop n' (S i) (take (length newStock - 1) newStock)
                       (<[i := col ++ [setFaceUp card]]> newTableau)
          | None => None
          end
      | None => dealLoop n' (S i) newStock newTableau
      end
  end.

Definition handleDeal (s : AppState) : Outcome :=
  match gameState s with
  | None => Returns s []
  | Some gs =>
      if bool_decide (length (stock gs) = 0%nat) then Returns s []
      else if existsb (fun col => bool_decide (length col = 0%nat)) (tableau gs)
      then Returns s [dealAlert]
      else
        match dealLoop 10 0 (stock gs) (tableau gs) with
        | Some (newStock, newTableau) =>
            Returns (setGameState {| tableau := newTableau;
                                     stock := newStock;
                                     foundations := foundations gs;
                                     moves := moves gs + 1;
                                     score := score gs |} s) []
        | None => TypeError
        end
  end.

(** ** App: handleCardClick *)

(** The tableau after the selected cards left column [src] for column [dst]
    ([gameState.tableau.map((col, idx) => ...)], lines 81-91). *)
Definition moveOnto (src cardIdx dst : nat) (movingCards : list Card)
  (t : Tableau) : Tableau :=
  imap (fun idx col =>
          if bool_decide (idx = src) then exposeTop (take cardIdx col)
          else if bool_decide (idx = dst) then col ++ movingCards
          else col) t.

Definition handleCardClick (colIdx cardIdx : nat) (s : AppState) : Outcome :=
  match gameState s with
  | None => Returns s []
  | Some gs =>
      match tableau gs !! colIdx with
      | None => TypeError
      | Some column =>
          match selectedCards s with
          | Some sel =>
              if bool_decide (colIndex sel = colIdx)
              then Returns (setSelectedCards None s) []
              else
                match tableau gs !! colIndex sel with
                | None => TypeError
                | Some sourceCol =>
                    let movingCards := drop (cardIndex sel) sourceCol in
                    let destCol := column in
                    let destCard := last destCol in
                    if isValidMove movingCards destCard then
                      let newTableau :=
                        moveOnto (colIndex sel) (cardIndex sel) colIdx
                                 movingCards (tableau gs) in
                      let checked := checkAndRemoveCompleteSet <$> newTableau in
                      let removedCount := Z.of_nat (length (filter (fun r => removed r = true) checked)) in
                      let finalTableau := newColumn <$> checked in
                      let newFoundations := foundations gs + removedCount in
                      let s1 :=
                        setSelectedCards None
                          (setGameState {| tableau := finalTableau;
                                           stock := stock gs;
                                           foundations := newFoundations;
                                           moves := moves gs + 1;
                                           score := score gs + removedCount * 100 - 1 |} s) in
                      Returns (if bool_decide (newFoundations = 8)
                               then setGameWon true s1 else s1) []
                    else
                      let potentialMovingCards := drop cardIdx column in
                      if canMoveSequence potentialMovingCards
                      then Returns (setSelectedCards (Some {| colIndex := colIdx; cardIndex := cardIdx |}) s) []
                      else Returns (setSelectedCards None s) []
                end
          | None =>
              let movingCards := drop cardIdx column in
              if canMoveSequence movingCards
              then Returns (setSelectedCards (Some {| colIndex := colIdx; cardIndex := cardIdx |}) s) []
              else Returns s []
          end
      end
  end.

(** ** App: handleEmptyColumnClick *)

(** The tableau after the selected cards left column [src] and became the
    whole of column [dst] (lines 142-152). *)
Definition moveToEmpty (src cardIdx dst : nat) (movingCards : list Card)
  (t : Tableau) : Tableau :=
  imap (fun idx col =>
          if bool_decide (idx = src) then exposeTop (take cardIdx col)
          else if bool_decide (idx = dst) then movingCards
          else col) t.

Definition handleEmptyColumnClick (colIdx : nat) (s : AppState) : Outcome :=
  match gameState s, selectedCards s with
  | Some gs, Some sel =>
      match tableau gs !! colIndex sel with
      | None => TypeError
      | Some sourceCol =>
          let movingCards := drop (cardIndex sel) sourceCol in
          let newTableau :=
            moveToEmpty (colIndex sel) (cardIndex sel) colIdx movingCards (tableau gs) in
          Returns (setSelectedCards None
                     (setGameState {| tableau := newTableau;
                                      stock := stock gs;
                                      foundations := foundations gs;
                                      moves := moves gs + 1;
                                      score := score gs - 1 |} s)) []
      end
  | _, _ => Returns s []
  end.

(** ** App: the events of the rendered board *)

Inductive Event :=
| Deal
| CardClick (colIdx cardIdx : nat)
| EmptyColumnClick (colIdx : nat).

Definition handle (e : Event) (s : AppState) : Outcome :=
  match e with
  | Deal => handleDeal s
  | CardClick colIdx cardIdx => handleCardClick colIdx cardIdx s
  | EmptyColumnClick colIdx => handleEmptyColumnClick colIdx s
  end.

(** Which events the rendered board offers: nothing is rendered without a
    game state; the stock is clickable while it has cards; a card is
    clickable where it lies; the column itself forwards a click to
    [handleEmptyColumnClick] only when it is empty (line 220). *)
Definition enabled (e : Event) (s : AppState) : bool :=
  match gameState s with
  | None => false
  | Some gs =>
      match e with
      | Deal => negb (bool_decide (length (stock gs) = 0%nat))
      | CardClick colIdx cardIdx =>
          match tableau gs !! colIdx with
          | Some column => bool_decide (cardIdx < length column)%nat
          | None => false
          end
      | EmptyColumnClick colIdx => bool_decide (tableau gs !! colIdx = Some [])
      end
  end.

(** The states a session can be in: before the first game, after
    [initGame] on a deck of 104 cards (on mount, "New Game", "Play Again" or a
    change of difficulty), and after any offered event handled from such a
    state. *)
Inductive reachable : AppState -> Prop :=
| reach_mounted : reachable mounted
| reach_init deck : length deck = 104%nat -> reachable (initGame deck)
| reach_event s e s' alerts :
    reachable s -> enabled e s = true -> handle e s = Returns s' alerts ->
    reachable s'.

(** Cards on the tableau, in the stock and in removed sets. *)
Definition tableauSize (t : Tableau) : Z :=
  Z.of_nat (sum_list_with length t).

Definition cardTotal (gs : GameState) : Z :=
  tableauSize (tableau gs) + Z.of_nat (length (stock gs)) + 13 * foundations gs.

(** * Specification vocabulary *)

(** The same card in another suit. *)
Definition withSuit (s : Suit) (c : Card) : Card :=
  {| id := id c; suit := s; rank := rank c; isFaceUp := isFaceUp c |}.

Definition fiveOfHearts : Card :=
  {| id := "5h"; suit := Hearts; rank := R5; isFaceUp := true |}.
Definition sixOfSpades : Card :=
  {| id := "6s"; suit := Spades; rank := R6; isFaceUp := true |}.
Definition sevenOfSpades : Card :=
  {| id := "7s"; suit := Spades; rank := R7; isFaceUp := true |}.

(** [next] lies on [prev] in a run: same suit, rank value one less. *)
Definition Follows (prev next : Card) : Prop :=
  suit next = suit prev /\ RANK_VALUES (rank next) = RANK_VALUES (rank prev) - 1.

(** Every two consecutive cards of the list are a link of a run. *)
Definition Descending (cards : list Card) : Prop :=
  forall (i : nat) prev next,
    cards !! i = Some prev -> cards !! S i = Some next -> Follows prev next.


(** A complete set as the specification words it: thirteen cards, all face
    up, of one suit, the card at position [i] having rank value [13 - i], so
    King first and Ace last. *)
Definition KingToAceRun (cards : list Card) : Prop :=
  length cards = 13%nat
  /\ (forall (i : nat) c, cards !! i = Some c ->
        isFaceUp c = true /\ RANK_VALUES (rank c) = 13 - Z.of_nat i)
  /\ (forall c c', c ∈ cards -> c' ∈ cards -> suit c = suit c').

(** The thirteen spades from King down to Ace, face up, with ids built from
    [tag]. *)
Definition spadeRun (tag : string) : list Card :=
  imap (fun i r => {| id := tag +:+ pretty i; suit := Spades; rank := r; isFaceUp := true |})
       kingToAce.

(** Two complete sets, one on the other. *)
Definition twoStackedRuns : Column := spadeRun "a" ++ spadeRun "b".

(** The column ends in two complete sets, one on the other; the top card of
    the lower one may still be face down. *)
Definition EndsInTwoRuns (column : Column) : Prop :=
  exists below lower upper,
    column = below ++ lower ++ upper
    /\ KingToAceRun (exposeTop lower) /\ KingToAceRun upper.

(** * Invariants of the controller *)

(** The selection points at a card that lies on the tableau. *)
Definition selectionValid (t : Tableau) (sel : option Selection) : Prop :=
  forall x, sel = Some x ->
    exists column, t !! colIndex x = Some column /\ (cardIndex x < length column)%nat.

(** Ten columns, 104 cards in play or removed, and a selection that points at
    a card. *)
Definition wellFormed (s : AppState) : Prop :=
  forall gs, gameState s = Some gs ->
    length (tableau gs) = 10%nat
    /\ cardTotal gs = 104
    /\ selectionValid (tableau gs) (selectedCards s).

(** * A sample game *)

(** A shuffled one-suit deck: eight cards of every rank, laid out here as
    [dealInitial] will deal it (the stock is dealt from its end). *)
Definition sampleRanks : list Rank :=
  [ (* column 0 *) R8; R4; R5; R6; R9; RK;
    (* column 1 *) RA; RJ; R7; R7; R3; RQ;
    (* column 2 *) R3; R5; RQ; R6; R2; RJ;
    (* column 3 *) RQ; RA; R8; RA; RK; R10;
    (* column 4 *) R8; RJ; R4; R8; R9;
    (* column 5 *) R9; R2; R4; R3; R8;
    (* column 6 *) R3; R4; R3; R6; R7;
    (* column 7 *) R7; RK; RQ; R10; R6;
    (* column 8 *) R4; RK; RK; RQ; R5;
    (* column 9 *) R2; R3; R4; R5; R4;
    (* stock *) R8; RK; RJ; R10; R6; RK; R5; R3; RJ; R6;
    (* stock *) RA; R10; RJ; R5; RK; R10; RJ; R7; R10; R7;
    (* stock *) R3; RQ; R6; R9; RA; R9; RQ; R5; R2; R9;
    (* stock *) R7; R8; R10; R2; RA; R5; R10; RJ; R2; R9;
    (* stock *) R6; R8; R2; RQ; R2; RA; R9; R4; R7; RA ].

(** The deck as [createDeck] hands it over: every card face down, with an id
    of its own. *)
Definition sampleDeck : list Card :=
  Eval vm_compute in
    imap (fun i r => {| id := "card-" +:+ pretty i; suit := Spades; rank := r; isFaceUp := false |})
         sampleRanks.

(** Handle the events one after the other; [None] when an event is not
    offered by the board or its handler does not return. *)
Fixpoint play (events : list Event) (s : AppState) : option AppState :=
  match events with
  | [] => Some s
  | e :: events' =>
      if enabled e s then
        match handle e s with
        | Returns s' _ => play events' s'
        | TypeError => None
        end
      else None
  end.

(** Click the card at [cardIdx] of column [src], then the card at [dstIdx] of
    column [dst]. *)
Definition clickThenClick (src cardIdx dst dstIdx : nat) : list Event :=
  [CardClick src cardIdx; CardClick dst dstIdx].

(** The queen to the two are moved one by one on the king of column 0; two
    deals put an ace and then a nine on them; column 9 is emptied card by
    card on column 8; the nine on column 0 is selected. *)
Definition sampleEvents : list Event :=
  clickThenClick 1 5 0 5 ++ clickThenClick 2 5 0 6 ++ clickThenClick 3 5 0 7
  ++ clickThenClick 4 4 0 8 ++ clickThenClick 5 4 0 9 ++ clickThenClick 6 4 0 10
  ++ clickThenClick 7 4 0 11 ++ clickThenClick 8 4 0 12 ++ clickThenClick 9 4 0 13
  ++ clickThenClick 1 4 0 14 ++ clickThenClick 2 4 0 15
  ++ [Deal; Deal]
  ++ clickThenClick 9 5 8 5 ++ clickThenClick 9 4 8 6 ++ clickThenClick 9 3 8 7
  ++ clickThenClick 9 2 8 8 ++ clickThenClick 9 1 8 9 ++ clickThenClick 9 0 8 10
  ++ [CardClick 0 18].

(** The state the sample game is in after [sampleEvents]: the nine that lies
    on a whole King-to-Ace run of column 0 is selected and column 9 is
    empty. *)
Definition sampleState : AppState :=
  Eval vm_compute in default mounted (play sampleEvents (initGame sampleDeck)).

(** The sample game after five deals in a row from the start: the stock is
    used up, and the board no longer draws a stock to click. *)
Definition dealtOutState : AppState :=
  Eval vm_compute in
    default mounted (play [Deal; Deal; Deal; Deal; Deal] (initGame sampleDeck)).

(** What the score is measured against: [500] at the start of a game if
    [score = 500 + 100 * foundations - moves] holds. *)
Definition scoreBalance (gs : GameState) : Z :=
  score gs - 100 * foundations gs + moves gs.

(** The game state a successful move onto column [dst] installs: the cards
    are moved, every column of the new tableau is checked once, and the
    removed sets are counted. *)
Definition afterMoveOnto (gs : GameState) (sel : Selection) (dst : nat)
  (sourceCol : Column) : GameState :=
  let newTableau :=
    moveOnto (colIndex sel) (cardIndex sel) dst
             (drop (cardIndex sel) sourceCol) (tableau gs) in
  let checked := checkAndRemoveCompleteSet <$> newTableau in
  let removedCount := Z.of_nat (length (filter (fun r => removed r = true) checked)) in
  {| tableau := newColumn <$> checked;
     stock := stock gs;
     foundations := foundations gs + removedCount;
     moves := moves gs + 1;
     score := score gs + removedCount * 100 - 1 |}.

(** A face-down four of hearts. *)
Definition hiddenFour : Card :=
  {| id := "4h"; suit := Hearts; rank := R4; isFaceUp := false |}.

(** * Further vocabulary for the controller *)

(** The top card of the column, if it has one, is face up. *)
Definition topFaceUp (column : Column) : Prop :=
  forall c, last column = Some c -> isFaceUp c = true.

(** What one round of the deal loop does to column [j]: the card at position
    [j] from the end of the stock, if there is one, is pushed face up. *)
Definition dealtOnto (oldStock : list Card) (j : nat) (column : Column) : Column :=
  match reverse oldStock !! j with
  | Some card => column ++ [setFaceUp card]
  | None => column
  end.

(** [Math.ceil(gameState.stock.length / 10)], the number of card backs drawn
    for the stock (line 254). *)
Definition stockPiles (gs : GameState) : nat :=
  ((length (stock gs) + 9) / 10)%nat.

(** The sample game with a selection that a deal made stale: the jack of
    column 2 is selected, and the deal puts a four on it. *)
Definition staleState : AppState :=
  Eval vm_compute in
    default mounted (play [CardClick 2 5; Deal] (initGame sampleDeck)).

(** The sample game after the selected nine went on the ten of column 3. *)
Definition sampleAfterMove : AppState :=
  Eval vm_compute in
    default mounted (play (sampleEvents ++ [CardClick 3 6]) (initGame sampleDeck)).

(** A state with a single column and two cards in the stock; [initGame] does
    not build it, the type [GameState] admits it. *)
Definition oneColumnState : AppState :=
  {| gameState := Some {| tableau := [[sixOfSpades]];
                          stock := [fiveOfHearts; sevenOfSpades];
                          foundations := 0; moves := 0; score := 500 |};
     selectedCards := None;
     gameWon := false |}.


(** No face-down card lies on a face-up card: above a face-up card of the
    column every card is face up. *)
Definition facesSorted (column : Column) : Prop :=
  forall (i j : nat) c1 c2,
    (i <= j)%nat -> column !! i = Some c1 -> column !! j = Some c2 ->
    isFaceUp c1 = true -> isFaceUp c2 = true.

(** The selected cards, if a selection is made, are all face up. *)
Definition selectionFaceUp (t : Tableau) (sel : option Selection) : Prop :=
  forall x column, sel = Some x -> t !! colIndex x = Some column ->
    Forall (fun c => isFaceUp c = true) (drop (cardIndex x) column).


(** The sample game after its first deal. *)
Definition dealtOnceState : AppState :=
  Eval vm_compute in default mounted (play [Deal] (initGame sampleDeck)).
(** * Properties of the rules engine *)

Section rules.

Implicit Types (c : Card) (cards : list Card) (column : Column).

(** ** isValidMove *)

Lemma isValidMove_true movingCards destCard :
  isValidMove movingCards destCard = true <->
  exists dest bottom rest,
    destCard = Some dest /\ movingCards = bottom :: rest /\
    RANK_VALUES (rank bottom) = RANK_VALUES (rank dest) - 1.
Proof.
  unfold isValidMove. split.
  - destruct destCard as [dest|]; [|discriminate].
    destruct movingCards as [|bottom rest]; [discriminate|].
    intros H%bool_decide_eq_true. by exists dest, bottom, rest.
  - intros (dest & bottom & rest & -> & -> & H).
    by apply bool_decide_eq_true.
Qed.

(** C1.  [isValidMove] is true exactly when there is a destination card and
    the bottom card of the moving sequence (its first element) has rank value
    one less than the destination's; it is false without a destination; the
    suits of the two cards play no part, so that a five of hearts goes on a
    six of spades but not on a seven. *)
Theorem isValidMove_spec :
  (forall movingCards destCard,
     isValidMove movingCards destCard = true <->
     exists dest bottom rest,
       destCard = Some dest /\ movingCards = bottom :: rest /\
       RANK_VALUES (rank bottom) = RANK_VALUES (rank dest) - 1)
  /\ (forall movingCards, isValidMove movingCards None = false)
  /\ (forall s1 s2 bottom rest dest,
        isValidMove (withSuit s1 bottom :: rest) (Some (withSuit s2 dest))
        = isValidMove (bottom :: rest) (Some dest))
  /\ isValidMove [fiveOfHearts] (Some sixOfSpades) = true
  /\ isValidMove [fiveOfHearts] (Some sevenOfSpades) = false
  /\ isValidMove [fiveOfHearts] None = false.
Proof.
  split; [exact isValidMove_true|].
  split; [by intros [|? ?]|].
  repeat split; done.
Qed.

(** ** canMoveSequence *)

Lemma continuesRun_true prev next :
  continuesRun prev next = true <-> Follows prev next.
Proof.
  unfold continuesRun, Follows.
  by rewrite andb_true_iff, !bool_decide_eq_true.
Qed.

Lemma Descending_cons prev next rest :
  Descending (prev :: next :: rest) <->
  Follows prev next /\ Descending (next :: rest).
Proof.
  unfold Descending. split.
  - intros H. split.
    + by apply (H 0%nat).
    + intros i a b Ha Hb. by apply (H (S i)).
  - intros [H0 H] [|i] a b Ha Hb.
    + simpl in Ha, Hb. by simplify_eq.
    + by apply (H i).
Qed.

Lemma Descending_singleton c : Descending [c].
Proof. intros [|i] a b Ha Hb; simpl in *; simplify_eq. Qed.

Lemma isRunFrom_true prev rest :
  isRunFrom prev rest = true <->
  Forall (fun c => isFaceUp c = true) rest /\ Descending (prev :: rest).
Proof.
  revert prev. induction rest as [|next rest IH]; intros prev; simpl.
  - split; [intros _|done]. split; [constructor|apply Descending_singleton].
  - rewrite !andb_true_iff, continuesRun_true, IH, Forall_cons, Descending_cons.
    tauto.
Qed.

(** C2.  [canMoveSequence] is true exactly for the non-empty lists all of
    whose cards are face up and in which every card has the suit of the card
    before it and a rank value one less.  A single card is movable iff it is
    face up; the examples of the specification are as it says. *)
Theorem canMoveSequence_spec :
  (forall cards,
     canMoveSequence cards = true <->
     cards <> [] /\ Forall (fun c => isFaceUp c = true) cards /\ Descending cards)
  /\ (forall c, canMoveSequence [c] = isFaceUp c)
  /\ canMoveSequence [mkCard "Ks" Spades RK true; mkCard "Qs" Spades RQ true] = true
  /\ canMoveSequence [mkCard "Ks" Spades RK true; mkCard "Qh" Hearts RQ true] = false
  /\ canMoveSequence [mkCard "Ks" Spades RK false] = false.
Proof.
  split; [|split; [|done]].
  - intros [|first rest]; simpl.
    + split; [done|]. by intros [? _].
    + rewrite andb_true_iff, isRunFrom_true, Forall_cons. split.
      * intros (? & ? & ?). done.
      * intros (_ & [? ?] & ?). done.
  - intros c. simpl. by rewrite andb_true_r.
Qed.

(** ** exposeTop *)

Lemma length_exposeTop column : length (exposeTop column) = length column.
Proof.
  unfold exposeTop. destruct (length column) eqn:E; [done|].
  by rewrite length_alter.
Qed.

Lemma exposeTop_snoc column c : exposeTop (column ++ [c]) = column ++ [setFaceUp c].
Proof.
  unfold exposeTop. rewrite length_app. simpl.
  replace (length column + 1)%nat with (S (length column)) by lia.
  rewrite alter_app_r_alt by lia.
  by replace (length column - length column)%nat with 0%nat by lia.
Qed.

Lemma exposeTop_app below cards :
  cards <> [] -> exposeTop (below ++ cards) = below ++ exposeTop cards.
Proof.
  intros Hne. destruct (last cards) as [top|] eqn:E.
  - apply last_Some in E as [init ->].
    by rewrite (assoc_L (++)), !exposeTop_snoc, (assoc_L (++)).
  - by apply last_None in E.
Qed.

(** ** checkAndRemoveCompleteSet *)

Lemma RANK_VALUES_inj r1 r2 : RANK_VALUES r1 = RANK_VALUES r2 -> r1 = r2.
Proof. by destruct r1, r2. Qed.

Lemma kingToAce_lookup (i : nat) r :
  kingToAce !! i = Some r -> RANK_VALUES r = 13 - Z.of_nat i.
Proof.
  unfold kingToAce.
  do 13 (destruct i as [|i]; [by intros [= <-]|]). done.
Qed.

Lemma isCompleteSet_true cards :
  isCompleteSet cards = true <-> KingToAceRun cards.
Proof.
  unfold KingToAceRun. split.
  - destruct cards as [|king rest]; [done|].
    unfold isCompleteSet.
    rewrite !andb_true_iff, bool_decide_eq_true, !forallb_forall.
    intros [[Hranks Hup] Hsuit]. split; [|split].
    + by rewrite <-(length_fmap rank), Hranks.
    + intros i c Hc. split.
      * apply Hup, list_elem_of_In. by eapply list_elem_of_lookup_2.
      * apply kingToAce_lookup. by rewrite <-Hranks, list_lookup_fmap, Hc.
    + intros c c' Hc%list_elem_of_In Hc'%list_elem_of_In.
      apply Hsuit, bool_decide_eq_true in Hc.
      apply Hsuit, bool_decide_eq_true in Hc'. congruence.
  - intros (Hlen & Hcards & Hsuit).
    destruct cards as [|king rest]; [done|].
    unfold isCompleteSet.
    rewrite !andb_true_iff, bool_decide_eq_true, !forallb_forall.
    split; [split|].
    + apply list_eq. intros i. rewrite list_lookup_fmap.
      destruct ((king :: rest) !! i) as [c|] eqn:Hc; simpl.
      * destruct (kingToAce !! i) as [r|] eqn:Hr.
        -- f_equal. apply RANK_VALUES_inj.
           apply Hcards in Hc as [_ ->]. by apply kingToAce_lookup in Hr as ->.
        -- apply lookup_lt_Some in Hc. apply lookup_ge_None in Hr.
           rewrite Hlen in Hc. simpl in Hr. lia.
      * symmetry. apply lookup_ge_None. apply lookup_ge_None in Hc.
        rewrite Hlen in Hc. simpl. lia.
    + intros c [i Hc]%list_elem_of_In%list_elem_of_lookup.
      by apply Hcards in Hc as [? _].
    + intros c Hc%list_elem_of_In. apply bool_decide_eq_true.
      apply Hsuit; [done|]. apply list_elem_of_here.
Qed.

Lemma checkAndRemoveCompleteSet_removes below run :
  KingToAceRun run ->
  checkAndRemoveCompleteSet (below ++ run)
  = {| newColumn := exposeTop below; removed := true |}.
Proof.
  intros Hrun. pose proof Hrun as (Hlen & _).
  unfold checkAndRemoveCompleteSet. rewrite length_app, Hlen.
  replace (length below + 13 - 13)%nat with (length below) by lia.
  rewrite drop_app_length, take_app_length.
  rewrite bool_decide_eq_true_2 by lia.
  by rewrite (proj2 (isCompleteSet_true run) Hrun).
Qed.

Lemma checkAndRemoveCompleteSet_keeps column :
  (length column < 13)%nat \/ ~ KingToAceRun (drop (length column - 13) column) ->
  checkAndRemoveCompleteSet column = {| newColumn := column; removed := false |}.
Proof.
  intros H. unfold checkAndRemoveCompleteSet.
  destruct (bool_decide (13 <= length column)%nat) eqn:Hlen; [|done].
  apply bool_decide_eq_true in Hlen.
  destruct H as [H|H]; [lia|].
  destruct (isCompleteSet _) eqn:E; [|done].
  by apply isCompleteSet_true in E.
Qed.

(** What a check that removed a set started from. *)
Lemma checkAndRemoveCompleteSet_removed_inv column :
  removed (checkAndRemoveCompleteSet column) = true ->
  exists below run,
    column = below ++ run /\ KingToAceRun run /\
    newColumn (checkAndRemoveCompleteSet column) = exposeTop below.
Proof.
  unfold checkAndRemoveCompleteSet.
  destruct (bool_decide _ && isCompleteSet _) eqn:E; [|done].
  apply andb_true_iff in E as [_ E%isCompleteSet_true]. intros _.
  exists (take (length column - 13) column), (drop (length column - 13) column).
  by rewrite take_drop.
Qed.

Lemma checkAndRemoveCompleteSet_kept column :
  removed (checkAndRemoveCompleteSet column) = false ->
  newColumn (checkAndRemoveCompleteSet column) = column.
Proof.
  unfold checkAndRemoveCompleteSet. by destruct (bool_decide _ && isCompleteSet _).
Qed.

(** C3.  A column whose last 13 cards are face up, of one suit and run from
    rank value 13 down to 1 loses exactly those cards and [removed] is true:
    nothing is left of a column that was only the run, and otherwise the
    cards below the run are left, the top one of them face up (whatever it
    was before) and the others as they were.  A column of fewer than 13
    cards, or whose last 13 cards are no such run, comes back as it was with
    [removed] false. *)
Theorem checkAndRemoveCompleteSet_spec :
  (forall column below run,
     column = below ++ run -> KingToAceRun run ->
     checkAndRemoveCompleteSet column
     = {| newColumn := exposeTop below; removed := true |}
     /\ (below = [] -> newColumn (checkAndRemoveCompleteSet column) = [])
     /\ forall rest top,
          below = rest ++ [top] ->
          newColumn (checkAndRemoveCompleteSet column)
          = rest ++ [{| id := id top; suit := suit top; rank := rank top;
                        isFaceUp := true |}])
  /\ (forall column,
        (length column < 13)%nat \/ ~ KingToAceRun (drop (length column - 13) column) ->
        checkAndRemoveCompleteSet column = {| newColumn := column; removed := false |}).
Proof.
  split.
  - intros column below run -> Hrun.
    rewrite (checkAndRemoveCompleteSet_removes below run Hrun). split_and!.
    + done.
    + by intros ->.
    + intros rest top ->. simpl. by rewrite exposeTop_snoc.
  - apply checkAndRemoveCompleteSet_keeps.
Qed.

Lemma checkAndRemoveCompleteSet_spec_witness :
  removed (checkAndRemoveCompleteSet (hiddenFour :: spadeRun "a")) = true
  /\ newColumn (checkAndRemoveCompleteSet (hiddenFour :: spadeRun "a"))
     = [{| id := "4h"; suit := Hearts; rank := R4; isFaceUp := true |}]
  /\ checkAndRemoveCompleteSet [hiddenFour]
     = {| newColumn := [hiddenFour]; removed := false |}.
Proof.
  assert (KingToAceRun (spadeRun "a")) as Hrun.
  { apply isCompleteSet_true. vm_compute. reflexivity. }
  destruct (proj1 checkAndRemoveCompleteSet_spec
              (hiddenFour :: spadeRun "a") [hiddenFour] (spadeRun "a") eq_refl Hrun)
    as (Hcheck & _ & Htop).
  split_and!.
  - rewrite Hcheck. reflexivity.
  - exact (Htop [] hiddenFour eq_refl).
  - apply (proj2 checkAndRemoveCompleteSet_spec [hiddenFour]).
    left. simpl. lia.
Defined.

(** ** Checking a column twice *)

Lemma second_check_removes column :
  removed (checkAndRemoveCompleteSet (newColumn (checkAndRemoveCompleteSet column))) = true
  <-> EndsInTwoRuns column.
Proof.
  unfold EndsInTwoRuns. split.
  - destruct (removed (checkAndRemoveCompleteSet column)) eqn:E1.
    + apply checkAndRemoveCompleteSet_removed_inv in E1
        as (below1 & upper & -> & Hupper & ->).
      intros (below & run & Heq & Hrun & _)%checkAndRemoveCompleteSet_removed_inv.
      assert (length below1 = (length below + 13)%nat) as Hlen.
      { rewrite <-(length_exposeTop below1), Heq, length_app.
        by destruct Hrun as [-> _]. }
      rewrite <-(take_drop (length below) below1) in Heq.
      rewrite exposeTop_app in Heq.
      2:{ intros Hnil%(f_equal length). rewrite length_drop in Hnil.
          simpl in Hnil. lia. }
      apply app_inj_1 in Heq as [Hbelow Hlower].
      2:{ rewrite length_take. lia. }
      exists below, (drop (length below) below1), upper.
      rewrite Hlower, <-Hbelow at 1.
      by rewrite (assoc_L (++)), take_drop.
    + rewrite (checkAndRemoveCompleteSet_kept _ E1). congruence.
  - intros (below & lower & upper & -> & Hlower & Hupper).
    rewrite (assoc_L (++)), (checkAndRemoveCompleteSet_removes _ _ Hupper). simpl.
    rewrite exposeTop_app.
    + by rewrite (checkAndRemoveCompleteSet_removes _ _ Hlower).
    + intros ->. by destruct Hlower as [? _].
Qed.

Lemma EndsInTwoRuns_length column : EndsInTwoRuns column -> (26 <= length column)%nat.
Proof.
  intros (below & lower & upper & -> & [Hlower _] & [Hupper _]).
  rewrite length_exposeTop in Hlower. rewrite !length_app. lia.
Qed.

(** C9, as the engine has it.  Checking the column that a check returned
    finds nothing to remove exactly when the original column does not end in
    two complete sets lying one on the other; so it finds nothing in a column
    of fewer than 26 cards, and nothing after a check that removed nothing. *)
Theorem second_check_spec column :
  let second :=
    removed (checkAndRemoveCompleteSet (newColumn (checkAndRemoveCompleteSet column))) in
  (second = false <-> ~ EndsInTwoRuns column)
  /\ ((length column < 26)%nat -> second = false)
  /\ (removed (checkAndRemoveCompleteSet column) = false -> second = false).
Proof.
  simpl. rewrite <-second_check_removes. split; [|split].
  - by destruct (removed _).
  - intros Hlen. apply not_true_is_false.
    intros H%second_check_removes%EndsInTwoRuns_length. lia.
  - intros E. by rewrite (checkAndRemoveCompleteSet_kept _ E).
Qed.

Lemma second_check_spec_witness :
  removed (checkAndRemoveCompleteSet
             (newColumn (checkAndRemoveCompleteSet (hiddenFour :: spadeRun "a")))) = false.
Proof.
  apply (proj1 (proj2 (second_check_spec (hiddenFour :: spadeRun "a")))).
  simpl. lia.
Defined.

(** C9, as stated, fails on two complete sets lying one on the other: the
    first check removes the upper set and the second check the lower one. *)
Lemma second_check_counterexample :
  removed (checkAndRemoveCompleteSet
             (newColumn (checkAndRemoveCompleteSet twoStackedRuns))) = true.
Proof. by vm_compute. Qed.

End rules.

(** * Properties of the controller *)

Section controller.

Implicit Types (t : Tableau) (gs : GameState) (s : AppState) (column : Column).

(** ** Counting the cards of a tableau *)

Lemma sum_lengths_insert t (i : nat) (old new : Column) :
  t !! i = Some old ->
  (sum_list_with length (<[i := new]> t) + length old
   = sum_list_with length t + length new)%nat.
Proof.
  revert i. induction t as [|col t IH]; intros [|i] Hi; simpl in *; simplify_eq.
  - lia.
  - specialize (IH i Hi). lia.
Qed.

Lemma moveOnto_inserts t (src cardIdx dst : nat) movingCards sourceCol destCol :
  src <> dst -> t !! src = Some sourceCol -> t !! dst = Some destCol ->
  moveOnto src cardIdx dst movingCards t
  = <[dst := destCol ++ movingCards]> (<[src := exposeTop (take cardIdx sourceCol)]> t).
Proof.
  intros Hne Hsrc Hdst. apply list_eq. intros i. unfold moveOnto.
  rewrite list_lookup_imap, !list_lookup_insert, length_insert.
  destruct (decide (i = src)) as [->|Hsrc'].
  - rewrite Hsrc. simpl. rewrite bool_decide_eq_true_2 by done.
    rewrite decide_False by (intros [? _]; congruence).
    rewrite decide_True; [done|]. split; [done|]. by eapply lookup_lt_Some.
  - destruct (decide (i = dst)) as [->|Hdst'].
    + rewrite Hdst. simpl. rewrite bool_decide_eq_false_2 by done.
      rewrite bool_decide_eq_true_2 by done.
      rewrite decide_True; [done|]. split; [done|]. by eapply lookup_lt_Some.
    + rewrite !decide_False by (intros [? _]; congruence).
      destruct (t !! i); simpl; [|done].
      by rewrite !bool_decide_eq_false_2 by done.
Qed.

Lemma moveToEmpty_inserts t (src cardIdx dst : nat) movingCards sourceCol destCol :
  src <> dst -> t !! src = Some sourceCol -> t !! dst = Some destCol ->
  moveToEmpty src cardIdx dst movingCards t
  = <[dst := movingCards]> (<[src := exposeTop (take cardIdx sourceCol)]> t).
Proof.
  intros Hne Hsrc Hdst. apply list_eq. intros i. unfold moveToEmpty.
  rewrite list_lookup_imap, !list_lookup_insert, length_insert.
  destruct (decide (i = src)) as [->|Hsrc'].
  - rewrite Hsrc. simpl. rewrite bool_decide_eq_true_2 by done.
    rewrite decide_False by (intros [? _]; congruence).
    rewrite decide_True; [done|]. split; [done|]. by eapply lookup_lt_Some.
  - destruct (decide (i = dst)) as [->|Hdst'].
    + rewrite Hdst. simpl. rewrite bool_decide_eq_false_2 by done.
      rewrite bool_decide_eq_true_2 by done.
      rewrite decide_True; [done|]. split; [done|]. by eapply lookup_lt_Some.
    + rewrite !decide_False by (intros [? _]; congruence).
      destruct (t !! i); simpl; [|done].
      by rewrite !bool_decide_eq_false_2 by done.
Qed.

Lemma tableauSize_moveOnto t (src cardIdx dst : nat) sourceCol destCol :
  src <> dst -> t !! src = Some sourceCol -> t !! dst = Some destCol ->
  tableauSize (moveOnto src cardIdx dst (drop cardIdx sourceCol) t) = tableauSize t.
Proof.
  intros Hne Hsrc Hdst. rewrite (moveOnto_inserts _ _ _ _ _ _ _ Hne Hsrc Hdst).
  unfold tableauSize. f_equal.
  pose proof (sum_lengths_insert t src sourceCol
                (exposeTop (take cardIdx sourceCol)) Hsrc) as H1.
  pose proof (sum_lengths_insert (<[src := exposeTop (take cardIdx sourceCol)]> t)
                dst destCol (destCol ++ drop cardIdx sourceCol)) as H2.
  rewrite list_lookup_insert_ne in H2 by done. specialize (H2 Hdst).
  rewrite length_exposeTop, length_take in H1.
  rewrite length_app, length_drop in H2. lia.
Qed.

Lemma tableauSize_moveToEmpty t (src cardIdx dst : nat) sourceCol :
  src <> dst -> t !! src = Some sourceCol -> t !! dst = Some [] ->
  tableauSize (moveToEmpty src cardIdx dst (drop cardIdx sourceCol) t) = tableauSize t.
Proof.
  intros Hne Hsrc Hdst. rewrite (moveToEmpty_inserts _ _ _ _ _ _ _ Hne Hsrc Hdst).
  unfold tableauSize. f_equal.
  pose proof (sum_lengths_insert t src sourceCol
                (exposeTop (take cardIdx sourceCol)) Hsrc) as H1.
  pose proof (sum_lengths_insert (<[src := exposeTop (take cardIdx sourceCol)]> t)
                dst [] (drop cardIdx sourceCol)) as H2.
  rewrite list_lookup_insert_ne in H2 by done. specialize (H2 Hdst).
  rewrite length_exposeTop, length_take in H1.
  rewrite length_drop in H2. simpl in H2. lia.
Qed.

(** A check takes 13 cards or none. *)
Lemma checkAndRemoveCompleteSet_length column :
  (length (newColumn (checkAndRemoveCompleteSet column))
   + (if removed (checkAndRemoveCompleteSet column) then 13 else 0)
   = length column)%nat.
Proof.
  unfold checkAndRemoveCompleteSet.
  destruct (bool_decide (13 <= length column)%nat) eqn:Hlen; simpl; [|lia].
  apply bool_decide_eq_true in Hlen.
  destruct (isCompleteSet _); simpl; [|lia].
  rewrite length_exposeTop, length_take. lia.
Qed.

Lemma tableauSize_checked t :
  let checked := checkAndRemoveCompleteSet <$> t in
  tableauSize (newColumn <$> checked)
  + 13 * Z.of_nat (length (filter (fun r => removed r = true) checked))
  = tableauSize t.
Proof.
  unfold tableauSize. induction t as [|column t IH]; [done|].
  cbn [fmap list_fmap sum_list_with] in *. rewrite filter_cons.
  pose proof (checkAndRemoveCompleteSet_length column) as Hcol.
  destruct (removed (checkAndRemoveCompleteSet column)) eqn:E.
  - rewrite decide_True by done. rewrite length_cons. lia.
  - rewrite decide_False by done. lia.
Qed.

(** ** The deal loop *)

Lemma dealLoop_spec (n i : nat) (st : list Card) t :
  (i + n <= length t)%nat ->
  exists st' t',
    dealLoop n i st t = Some (st', t')
    /\ length t' = length t
    /\ (sum_list_with length t' + length st' = sum_list_with length t + length st)%nat
    /\ (length st' = length st - n)%nat
    /\ forall (c : nat) column, t !! c = Some column ->
         exists column', t' !! c = Some column' /\ (length column <= length column')%nat.
Proof.
  revert i st t. induction n as [|n IH]; intros i st t Hlen; simpl.
  - exists st, t. split_and!; [done|done|done|lia|].
    intros c column Hc. by exists column.
  - destruct (last st) as [card|] eqn:Hlast.
    + apply last_Some in Hlast as [st0 ->].
      destruct (lookup_lt_is_Some_2 t i) as [col Hcol]; [lia|].
      rewrite Hcol.
      destruct (IH (S i) (take (length (st0 ++ [card]) - 1) (st0 ++ [card]))
                   (<[i := col ++ [setFaceUp card]]> t))
        as (st' & t' & -> & Hlen' & Hsum & Hst & Hgrow).
      { rewrite length_insert. lia. }
      exists st', t'. split; [done|].
      rewrite length_insert in Hlen'.
      pose proof (sum_lengths_insert t i col (col ++ [setFaceUp card]) Hcol) as Hins.
      rewrite length_take, length_app in Hsum, Hst.
      rewrite length_app in Hins. rewrite length_app. simpl in *.
      split_and!; [done|lia|lia|].
      intros c column Hc.
      destruct (decide (i = c)) as [->|Hne].
      * destruct (Hgrow c (col ++ [setFaceUp card])) as (column' & ? & Hle).
        { apply list_lookup_insert_eq. by eapply lookup_lt_Some. }
        exists column'. split; [done|].
        rewrite length_app in Hle. simplify_eq. lia.
      * apply Hgrow. by rewrite list_lookup_insert_ne.
    + apply last_None in Hlast as ->.
      destruct (IH (S i) [] t) as (st' & t' & -> & Hlen' & Hsum & Hst & Hgrow); [lia|].
      exists st', t'. simpl in *. split_and!; [done|done|lia|lia|done].
Qed.

(** ** initGame *)

Lemma dealt_sizes (szs : list nat) (deck : list Card) :
  (sum_list_with length (exposeTop <$> reshape szs deck)
   + length (drop (sum_list szs) deck) = length deck)%nat.
Proof.
  revert deck. induction szs as [|n szs IH]; intros deck.
  - simpl. by rewrite drop_0.
  - change (sum_list (n :: szs)) with (n + sum_list szs)%nat.
    cbn [reshape fmap list_fmap sum_list_with].
    specialize (IH (drop n deck)).
    rewrite drop_drop, !length_drop in IH.
    rewrite length_exposeTop, length_take, length_drop. lia.
Qed.

Lemma initGame_wellFormed deck : length deck = 104%nat -> wellFormed (initGame deck).
Proof.
  intros Hdeck gs Hgs. apply (inj Some) in Hgs as <-. split_and!.
  - cbn [tableau dealInitial dealtTableau].
    by rewrite length_fmap, length_reshape.
  - pose proof (dealt_sizes columnSizes deck) as H.
    unfold cardTotal, tableauSize.
    cbn [tableau stock foundations dealInitial dealtTableau remainingStock].
    change (sum_list columnSizes) with 54%nat in H. lia.
  - by intros x.
Qed.

(** ** The handlers keep the state well formed *)

Lemma handleDeal_wellFormed s s' alerts :
  wellFormed s -> handleDeal s = Returns s' alerts -> wellFormed s'.
Proof.
  intros Hwf. unfold handleDeal.
  destruct (gameState s) as [gs|] eqn:Hgs; [|by intros [= <- _]].
  destruct (Hwf gs Hgs) as (Hlen & Htotal & Hsel).
  destruct (bool_decide (length (stock gs) = 0%nat)); [by intros [= <- _]|].
  destruct (existsb _ _); [by intros [= <- _]|].
  destruct (dealLoop_spec 10 0 (stock gs) (tableau gs))
    as (st' & t' & -> & Hlen' & Hsum & _ & Hgrow); [lia|].
  intros [= <- _] gs' [= <-]. simpl. split_and!.
  - congruence.
  - unfold cardTotal, tableauSize in *. simpl. lia.
  - intros x Hx. destruct (Hsel x Hx) as (column & Hcol & Hidx).
    destruct (Hgrow _ _ Hcol) as (column' & ? & ?).
    exists column'. split; [done|lia].
Qed.

Lemma handleCardClick_wellFormed s s' alerts (colIdx cardIdx : nat) :
  wellFormed s -> enabled (CardClick colIdx cardIdx) s = true ->
  handleCardClick colIdx cardIdx s = Returns s' alerts -> wellFormed s'.
Proof.
  intros Hwf. unfold enabled, handleCardClick.
  destruct (gameState s) as [gs|] eqn:Hgs; [|done].
  destruct (Hwf gs Hgs) as (Hlen & Htotal & Hsel).
  destruct (tableau gs !! colIdx) as [column|] eqn:Hcol; [|done].
  intros Hidx%bool_decide_eq_true.
  assert (wellFormed (setSelectedCards None s)) as Hnone.
  { intros gs' Hgs'. simpl in Hgs'. rewrite Hgs in Hgs'. simplify_eq.
    split_and!; [done|done|]. by intros x. }
  assert (wellFormed (setSelectedCards
                        (Some {| colIndex := colIdx; cardIndex := cardIdx |}) s)) as Hnew.
  { intros gs' Hgs'. simpl in Hgs'. rewrite Hgs in Hgs'. simplify_eq.
    split_and!; [done|done|]. intros x [= <-]. by exists column. }
  destruct (selectedCards s) as [sel|] eqn:Hsel'.
  - destruct (bool_decide (colIndex sel = colIdx)) eqn:Hsame; [by intros [= <- _]|].
    apply bool_decide_eq_false in Hsame.
    destruct (Hsel sel eq_refl) as (sourceCol & Hsrc & _). rewrite Hsrc.
    destruct (isValidMove _ _).
    + intros [= <- _] gs' Hgs'.
      assert (gs' = {| tableau := newColumn <$> (checkAndRemoveCompleteSet <$>
                         moveOnto (colIndex sel) (cardIndex sel) colIdx
                           (drop (cardIndex sel) sourceCol) (tableau gs));
                       stock := stock gs;
                       foundations := foundations gs + Z.of_nat (length (filter
                         (fun r => removed r = true) (checkAndRemoveCompleteSet <$>
                         moveOnto (colIndex sel) (cardIndex sel) colIdx
                           (drop (cardIndex sel) sourceCol) (tableau gs))));
                       moves := moves gs + 1;
                       score := score gs + Z.of_nat (length (filter
                         (fun r => removed r = true) (checkAndRemoveCompleteSet <$>
                         moveOnto (colIndex sel) (cardIndex sel) colIdx
                           (drop (cardIndex sel) sourceCol) (tableau gs)))) * 100 - 1 |})
        as ->.
      { destruct (bool_decide _) in Hgs'; simpl in Hgs'; by simplify_eq. }
      split_and!.
      * simpl. unfold moveOnto. by rewrite !length_fmap, length_imap.
      * pose proof (tableauSize_checked
                      (moveOnto (colIndex sel) (cardIndex sel) colIdx
                         (drop (cardIndex sel) sourceCol) (tableau gs))) as Hchk.
        rewrite (tableauSize_moveOnto _ _ _ _ _ _ Hsame Hsrc Hcol) in Hchk.
        unfold cardTotal in *. simpl in *. lia.
      * destruct (bool_decide _); by intros x.
    + destruct (canMoveSequence _); by intros [= <- _].
  - destruct (canMoveSequence _); by intros [= <- _].
Qed.

Lemma handleEmptyColumnClick_wellFormed s s' alerts (colIdx : nat) :
  wellFormed s -> enabled (EmptyColumnClick colIdx) s = true ->
  handleEmptyColumnClick colIdx s = Returns s' alerts -> wellFormed s'.
Proof.
  intros Hwf. unfold enabled, handleEmptyColumnClick.
  destruct (gameState s) as [gs|] eqn:Hgs; [|done].
  destruct (Hwf gs Hgs) as (Hlen & Htotal & Hsel).
  intros Hempty%bool_decide_eq_true.
  destruct (selectedCards s) as [sel|] eqn:Hsel'; [|by intros [= <- _]].
  destruct (Hsel sel eq_refl) as (sourceCol & Hsrc & Hidx). rewrite Hsrc.
  assert (colIndex sel <> colIdx) as Hne.
  { intros Heq. rewrite Heq, Hempty in Hsrc. simplify_eq. simpl in Hidx. lia. }
  intros [= <- _] gs' [= <-]. split_and!.
  - simpl. unfold moveToEmpty. by rewrite length_imap.
  - unfold cardTotal in *. simpl.
    by rewrite (tableauSize_moveToEmpty _ _ _ _ _ Hne Hsrc Hempty).
  - by intros x.
Qed.

Lemma handle_wellFormed s e s' alerts :
  wellFormed s -> enabled e s = true -> handle e s = Returns s' alerts ->
  wellFormed s'.
Proof.
  destruct e; simpl; intros Hwf Hen Hret.
  - by eapply handleDeal_wellFormed.
  - by eapply handleCardClick_wellFormed.
  - by eapply handleEmptyColumnClick_wellFormed.
Qed.

Lemma reachable_wellFormed s : reachable s -> wellFormed s.
Proof.
  induction 1 as [|deck Hdeck|s e s' alerts _ IH Hen Hret].
  - by intros gs.
  - by apply initGame_wellFormed.
  - by eapply handle_wellFormed.
Qed.

(** No offered event ends in a [TypeError]. *)
Lemma handle_returns s e :
  wellFormed s -> enabled e s = true -> exists s' alerts, handle e s = Returns s' alerts.
Proof.
  intros Hwf. unfold enabled.
  destruct (gameState s) as [gs|] eqn:Hgs; [|done].
  destruct (Hwf gs Hgs) as (Hlen & Htotal & Hsel).
  destruct e as [|colIdx cardIdx|colIdx]; simpl.
  - intros _. unfold handleDeal. rewrite Hgs.
    destruct (bool_decide _); [by eauto|].
    destruct (existsb _ _); [by eauto|].
    destruct (dealLoop_spec 10 0 (stock gs) (tableau gs))
      as (st' & t' & -> & _); [lia|]. by eauto.
  - unfold handleCardClick. rewrite Hgs.
    destruct (tableau gs !! colIdx) as [column|]; [|done]. intros _.
    destruct (selectedCards s) as [sel|].
    + destruct (bool_decide _); [by eauto|].
      destruct (Hsel sel eq_refl) as (sourceCol & -> & _).
      destruct (isValidMove _ _); [by eauto|].
      destruct (canMoveSequence _); by eauto.
    + destruct (canMoveSequence _); by eauto.
  - intros _. unfold handleEmptyColumnClick. rewrite Hgs.
    destruct (selectedCards s) as [sel|]; [|by eauto].
    destruct (Hsel sel eq_refl) as (sourceCol & -> & _). by eauto.
Qed.

(** ** What a click on a card does to the game state *)

Lemma handleCardClick_gameState s s' alerts (colIdx cardIdx : nat) gs gs' :
  handleCardClick colIdx cardIdx s = Returns s' alerts ->
  gameState s = Some gs -> gameState s' = Some gs' ->
  gs' = gs
  \/ exists sel sourceCol column,
       selectedCards s = Some sel /\ colIndex sel <> colIdx
       /\ tableau gs !! colIndex sel = Some sourceCol
       /\ tableau gs !! colIdx = Some column
       /\ isValidMove (drop (cardIndex sel) sourceCol) (last column) = true
       /\ gs' = afterMoveOnto gs sel colIdx sourceCol.
Proof.
  unfold handleCardClick. intros Hret Hgs. rewrite Hgs in Hret.
  destruct (tableau gs !! colIdx) as [column|] eqn:Hcol; [|done].
  destruct (selectedCards s) as [sel|] eqn:Hsel.
  - destruct (bool_decide (colIndex sel = colIdx)) eqn:Hsame.
    { injection Hret as <- _. simpl. rewrite Hgs. intros [= <-]. by left. }
    apply bool_decide_eq_false in Hsame.
    destruct (tableau gs !! colIndex sel) as [sourceCol|] eqn:Hsrc; [|done].
    destruct (isValidMove _ _) eqn:Hvalid.
    + injection Hret as <- _. intros Hgs'. right.
      exists sel, sourceCol, column. split_and!; try done.
      unfold afterMoveOnto.
      destruct (bool_decide _) in Hgs'; simpl in Hgs'; by simplify_eq.
    + destruct (canMoveSequence _); injection Hret as <- _;
        simpl; rewrite Hgs; intros [= <-]; by left.
  - destruct (canMoveSequence _); injection Hret as <- _;
      simpl; rewrite ?Hgs; intros ?; simplify_eq; by left.
Qed.

(** Every move handler pays for its move.  A deal that is performed counts
    as a move, takes ten cards from the stock (or what is left of it) and
    leaves the score alone. *)
Lemma score_step s e s' alerts gs gs' :
  wellFormed s -> handle e s = Returns s' alerts ->
  gameState s = Some gs -> gameState s' = Some gs' ->
  (scoreBalance gs' = scoreBalance gs /\ stock gs' = stock gs)
  \/ (e = Deal /\ stock gs <> []
      /\ moves gs' = moves gs + 1 /\ score gs' = score gs
      /\ foundations gs' = foundations gs
      /\ length (stock gs') = (length (stock gs) - 10)%nat).
Proof.
  intros Hwf Hret Hgs Hgs'. destruct (Hwf gs Hgs) as (Hlen & _).
  destruct e as [|colIdx cardIdx|colIdx]; simpl in Hret.
  - unfold handleDeal in Hret. rewrite Hgs in Hret.
    destruct (bool_decide (length (stock gs) = 0%nat)) eqn:Hstock;
      [simplify_eq; by left|].
    destruct (existsb _ _); [simplify_eq; by left|].
    destruct (dealLoop_spec 10 0 (stock gs) (tableau gs))
      as (st' & t' & Hloop & _ & _ & Hst & _); [lia|].
    rewrite Hloop in Hret. simplify_eq. simpl in Hgs'. simplify_eq.
    right. split_and!; try done.
    apply bool_decide_eq_false in Hstock. intros Hnil. by rewrite Hnil in Hstock.
  - left.
    destruct (handleCardClick_gameState _ _ _ _ _ _ _ Hret Hgs Hgs')
      as [->|(sel & sourceCol & column & _ & _ & _ & _ & _ & ->)]; [done|].
    unfold scoreBalance, afterMoveOnto. simpl. split; [lia|done].
  - left. unfold handleEmptyColumnClick in Hret. rewrite Hgs in Hret.
    destruct (selectedCards s) as [sel|]; [|by simplify_eq].
    destruct (tableau gs !! colIndex sel); [|done].
    simplify_eq. simpl in Hgs'. simplify_eq.
    unfold scoreBalance. simpl. split; [lia|done].
Qed.

(** ** Playing a list of events *)

(** Goals about the sample game are closed by running the model. *)
Ltac by_running := vm_compute; reflexivity.

Lemma play_reachable events s s' :
  reachable s -> play events s = Some s' -> reachable s'.
Proof.
  revert s. induction events as [|e events IH]; intros s Hs; simpl.
  - by intros [= <-].
  - destruct (enabled e s) eqn:Hen; [|done].
    destruct (handle e s) as [s1 alerts|] eqn:Hret; [|done].
    apply IH. by eapply reach_event.
Qed.

Lemma sampleState_played :
  play sampleEvents (initGame sampleDeck) = Some sampleState.
Proof. by_running. Qed.

Lemma sampleDeck_length : length sampleDeck = 104%nat.
Proof. by_running. Qed.

Lemma sampleState_reachable : reachable sampleState.
Proof.
  apply (play_reachable sampleEvents (initGame sampleDeck)).
  - apply reach_init, sampleDeck_length.
  - apply sampleState_played.
Qed.

(** ** The score *)

(** What the code keeps instead of [score = 500 + 100 * foundations - moves]:
    the score is above that value by the number of deals made, which is a
    tenth of the cards gone from the stock of 50.  Up to the first deal of a
    game the two agree. *)
Lemma score_invariant s gs :
  reachable s -> gameState s = Some gs ->
  10 * (score gs - (500 + 100 * foundations gs - moves gs))
  = 50 - Z.of_nat (length (stock gs)).
Proof.
  intros Hs. revert gs.
  induction Hs as [|deck Hdeck|s e s' alerts Hs IH Hen Hret]; intros gs' Hgs'.
  - done.
  - apply (inj Some) in Hgs' as <-.
    cbn [score foundations moves stock dealInitial remainingStock].
    rewrite length_drop. lia.
  - assert (is_Some (gameState s)) as [gs Hgs].
    { unfold enabled in Hen. by destruct (gameState s). }
    specialize (IH gs Hgs).
    destruct (score_step s e s' alerts gs gs' (reachable_wellFormed s Hs) Hret Hgs Hgs')
      as [[Hbal Hstock]|(_ & Hne & Hm & Hsc & Hf & Hstock)].
    + unfold scoreBalance in Hbal. rewrite Hstock. lia.
    + assert (length (stock gs) <> 0%nat) by by destruct (stock gs).
      rewrite Hstock, Hm, Hsc, Hf. lia.
Qed.

(** C4 fails on the first deal of the sample game.  The deal is offered and
    handled, it counts as a move, and the score stays at 500, which is not
    [500 + 100 * foundations - moves]. *)
Theorem deal_keeps_score :
  exists s' gs',
    reachable (initGame sampleDeck)
    /\ enabled Deal (initGame sampleDeck) = true
    /\ handle Deal (initGame sampleDeck) = Returns s' []
    /\ reachable s'
    /\ gameState s' = Some gs'
    /\ foundations gs' = 0 /\ moves gs' = 1 /\ score gs' = 500
    /\ score gs' <> 500 + 100 * foundations gs' - moves gs'.
Proof.
  eexists _, _. split_and!.
  - apply reach_init, sampleDeck_length.
  - by_running.
  - by_running.
  - apply (reach_event (initGame sampleDeck) Deal _ []).
    + apply reach_init, sampleDeck_length.
    + by_running.
    + by_running.
  - reflexivity.
  - reflexivity.
  - reflexivity.
  - reflexivity.
  - intros H. vm_compute in H. discriminate H.
Qed.

(** ** The cards *)

(** C5.  In every reachable state with a game the tableau has ten columns
    and the cards on it, the cards of the stock and thirteen cards for each
    removed set are 104 together; whatever event the board offers, its
    handler returns and leaves that total as it was. *)
Theorem card_total_invariant s gs :
  reachable s -> gameState s = Some gs ->
  length (tableau gs) = 10%nat
  /\ cardTotal gs = 104
  /\ forall e, enabled e s = true ->
       exists s' alerts gs',
         handle e s = Returns s' alerts /\ gameState s' = Some gs'
         /\ cardTotal gs' = cardTotal gs.
Proof.
  intros Hs Hgs. pose proof (reachable_wellFormed s Hs) as Hwf.
  destruct (Hwf gs Hgs) as (Hlen & Htotal & _). split_and!; [done|done|].
  intros e Hen.
  destruct (handle_returns s e Hwf Hen) as (s' & alerts & Hret).
  pose proof (handle_wellFormed s e s' alerts Hwf Hen Hret) as Hwf'.
  assert (is_Some (gameState s')) as [gs' Hgs'].
  { destruct e as [|colIdx cardIdx|colIdx]; simpl in Hret.
    - unfold handleDeal in Hret. rewrite Hgs in Hret.
      repeat case_match; by simplify_eq.
    - unfold handleCardClick in Hret. rewrite Hgs in Hret.
      repeat case_match; simplify_eq; simpl; by rewrite ?Hgs.
    - unfold handleEmptyColumnClick in Hret. rewrite Hgs in Hret.
      repeat case_match; by simplify_eq. }
  exists s', alerts, gs'. split_and!; [done|done|].
  destruct (Hwf' gs' Hgs') as (_ & -> & _). done.
Qed.

Lemma card_total_invariant_witness :
  exists gs, gameState sampleState = Some gs /\ cardTotal gs = 104.
Proof.
  eexists. split; [reflexivity|].
  exact (proj1 (proj2 (card_total_invariant sampleState _ sampleState_reachable eq_refl))).
Defined.

(** ** Deals that do nothing *)

(** C6.  Whenever the board offers a deal (it draws the stock to click only
    while the stock has cards) and a column of the tableau is empty, the deal
    is refused: the message is shown and the whole state (tableau, stock,
    foundations, moves, score, selection, win flag) is left as it was. *)
Theorem handleDeal_rejects_empty_column s gs :
  gameState s = Some gs -> enabled Deal s = true -> [] ∈ tableau gs ->
  handle Deal s = Returns s [dealAlert].
Proof.
  intros Hgs Hen Hempty. unfold enabled in Hen. rewrite Hgs in Hen.
  simpl. unfold handleDeal. rewrite Hgs.
  destruct (bool_decide (length (stock gs) = 0%nat)); [done|].
  assert (existsb (fun col : Column => bool_decide (length col = 0%nat))
                  (tableau gs) = true) as ->; [|done].
  apply existsb_exists. exists []. split; [by apply list_elem_of_In|done].
Qed.

Lemma handleDeal_rejects_empty_column_witness :
  handle Deal sampleState = Returns sampleState [dealAlert].
Proof.
  apply (handleDeal_rejects_empty_column sampleState _ eq_refl).
  - reflexivity.
  - apply (list_elem_of_lookup_2 _ 9%nat). reflexivity.
Defined.

(** C10.  With an empty stock [handleDeal] returns at once: no message, and
    the state it leaves is the state it found. *)
Theorem handleDeal_empty_stock s gs :
  gameState s = Some gs -> stock gs = [] -> handleDeal s = Returns s [].
Proof.
  intros Hgs Hstock. unfold handleDeal. by rewrite Hgs, Hstock.
Qed.

Lemma handleDeal_empty_stock_witness :
  handleDeal dealtOutState = Returns dealtOutState [].
Proof. exact (handleDeal_empty_stock dealtOutState _ eq_refl eq_refl). Defined.

(** ** Moves to an empty column *)

(** The handler asks nothing of the selected cards: whatever they are, they
    become the column that was clicked. *)
Lemma handleEmptyColumnClick_result s gs sel sourceCol destCol (colIdx : nat) :
  gameState s = Some gs -> selectedCards s = Some sel ->
  tableau gs !! colIndex sel = Some sourceCol ->
  tableau gs !! colIdx = Some destCol -> colIndex sel <> colIdx ->
  handleEmptyColumnClick colIdx s
  = Returns
      {| gameState :=
           Some {| tableau :=
                     <[colIdx := drop (cardIndex sel) sourceCol]>
                       (<[colIndex sel := exposeTop (take (cardIndex sel) sourceCol)]>
                          (tableau gs));
                   stock := stock gs;
                   foundations := foundations gs;
                   moves := moves gs + 1;
                   score := score gs - 1 |};
         selectedCards := None;
         gameWon := gameWon s |} [].
Proof.
  intros Hgs Hsel Hsrc Hdst Hne. unfold handleEmptyColumnClick.
  rewrite Hgs, Hsel, Hsrc.
  by rewrite (moveToEmpty_inserts _ _ _ _ _ _ _ Hne Hsrc Hdst).
Qed.

(** C8.  With a movable sequence selected, a click on an empty column moves
    the whole selected suffix there: the source column keeps the cards below
    it with its new top card face up, the clicked column becomes the moving
    cards, the other columns stay, the move is counted and paid for and the
    selection is cleared.  No rank or suit is looked at; [isValidMove] itself
    answers false for a destination without a card. *)
Theorem handleEmptyColumnClick_moves s gs sel sourceCol (colIdx : nat) :
  gameState s = Some gs -> selectedCards s = Some sel ->
  tableau gs !! colIndex sel = Some sourceCol ->
  canMoveSequence (drop (cardIndex sel) sourceCol) = true ->
  tableau gs !! colIdx = Some [] ->
  handleEmptyColumnClick colIdx s
  = Returns
      {| gameState :=
           Some {| tableau :=
                     <[colIdx := drop (cardIndex sel) sourceCol]>
                       (<[colIndex sel := exposeTop (take (cardIndex sel) sourceCol)]>
                          (tableau gs));
                   stock := stock gs;
                   foundations := foundations gs;
                   moves := moves gs + 1;
                   score := score gs - 1 |};
         selectedCards := None;
         gameWon := gameWon s |} []
  /\ isValidMove (drop (cardIndex sel) sourceCol) (last []) = false.
Proof.
  intros Hgs Hsel Hsrc Hmovable Hempty. split.
  - apply (handleEmptyColumnClick_result s gs sel sourceCol []); try done.
    intros Heq. rewrite Heq, Hempty in Hsrc. simplify_eq.
    by rewrite drop_nil in Hmovable.
  - by destruct (drop _ _).
Qed.

Lemma handleEmptyColumnClick_moves_witness :
  exists s', handleEmptyColumnClick 9 sampleState = Returns s' [].
Proof.
  eexists.
  refine (proj1 (handleEmptyColumnClick_moves sampleState _ _ _ 9 eq_refl eq_refl _ _ _)).
  - reflexivity.
  - by_running.
  - reflexivity.
Defined.

(** C7 fails in the sample game.  The nine that is moved to the empty
    column 9 leaves a whole King-to-Ace run of spades, all face up, at the end
    of column 0.  [handleEmptyColumnClick] installs the tableau unchecked: the
    run stays, a check of column 0 would remove it, and [foundations] is what
    it was.  The same nine moved on the ten of column 3 goes through
    [handleCardClick], which checks the columns and removes the run. *)
Theorem empty_column_move_skips_check :
  exists gs s' gs' column s2 gs2,
    reachable sampleState
    /\ gameState sampleState = Some gs
    /\ enabled (EmptyColumnClick 9) sampleState = true
    /\ handle (EmptyColumnClick 9) sampleState = Returns s' []
    /\ gameState s' = Some gs'
    /\ tableau gs' !! 0%nat = Some column
    /\ KingToAceRun (drop (length column - 13) column)
    /\ removed (checkAndRemoveCompleteSet column) = true
    /\ foundations gs' = foundations gs
    /\ enabled (CardClick 3 6) sampleState = true
    /\ handle (CardClick 3 6) sampleState = Returns s2 []
    /\ gameState s2 = Some gs2
    /\ foundations gs2 = foundations gs + 1.
Proof.
  eexists _, _, _, _, _, _. split_and!.
  - apply sampleState_reachable.
  - by_running.
  - by vm_compute.
  - by_running.
  - reflexivity.
  - reflexivity.
  - apply isCompleteSet_true. by vm_compute.
  - by vm_compute.
  - reflexivity.
  - by vm_compute.
  - by_running.
  - reflexivity.
  - reflexivity.
Qed.

(** After a move onto a card every column of the moved tableau has been
    checked once: column [i] of the new state is the checked column [i]. *)
Lemma handleCardClick_checks_columns s s' alerts (colIdx cardIdx : nat) gs gs' :
  handleCardClick colIdx cardIdx s = Returns s' alerts ->
  gameState s = Some gs -> gameState s' = Some gs' -> gs' <> gs ->
  exists sel sourceCol,
    selectedCards s = Some sel
    /\ tableau gs !! colIndex sel = Some sourceCol
    /\ let moved := moveOnto (colIndex sel) (cardIndex sel) colIdx
                             (drop (cardIndex sel) sourceCol) (tableau gs) in
       (forall i : nat,
          tableau gs' !! i
          = (fun column => newColumn (checkAndRemoveCompleteSet column)) <$> moved !! i)
       /\ foundations gs'
          = foundations gs
            + Z.of_nat (length (filter (fun column =>
                          removed (checkAndRemoveCompleteSet column) = true) moved)).
Proof.
  intros Hret Hgs Hgs' Hne.
  destruct (handleCardClick_gameState _ _ _ _ _ _ _ Hret Hgs Hgs')
    as [->|(sel & sourceCol & column & Hsel & _ & Hsrc & _ & _ & ->)]; [done|].
  exists sel, sourceCol. split_and!; [done|done|]. simpl. split.
  - intros i. rewrite !list_lookup_fmap. by destruct (_ !! i).
  - do 2 f_equal. generalize (moveOnto (colIndex sel) (cardIndex sel) colIdx
      (drop (cardIndex sel) sourceCol) (tableau gs)).
    intros t. induction t as [|c t IH]; [done|].
    rewrite fmap_cons, !filter_cons.
    destruct (removed (checkAndRemoveCompleteSet c)) eqn:E.
    + rewrite !decide_True by done. simpl. by rewrite IH.
    + by rewrite !decide_False by done.
Qed.

End controller.

(** * Further properties of the controller *)

Section handlers.

Implicit Types (t : Tableau) (gs : GameState) (s : AppState) (column : Column).

(** Goals about the sample game are closed by running the model. *)
Ltac by_evaluation := vm_compute; reflexivity.

(** ** handleDeal: what a deal hands out *)

(** The loop gives column [i + k] the card at position [k] from the end of
    the stock, for the [n] rounds it runs, and cuts [n] cards off the stock. *)
Lemma dealLoop_result (n i : nat) (st : list Card) t :
  (i + n <= length t)%nat ->
  dealLoop n i st t
  = Some (take (length st - n) st,
          imap (fun j column =>
                  if decide (i <= j < i + n)%nat
                  then dealtOnto st (j - i) column else column) t).
Proof.
  revert i st t. induction n as [|n IH]; intros i st t Hlen; simpl.
  - rewrite Nat.sub_0_r, firstn_all. do 2 f_equal.
    apply list_eq. intros j. rewrite list_lookup_imap.
    destruct (t !! j); simpl; [|done]. by rewrite decide_False by lia.
  - destruct (last st) as [card|] eqn:Hlast.
    + apply last_Some in Hlast as [st0 ->].
      destruct (lookup_lt_is_Some_2 t i) as [col Hcol]; [lia|].
      rewrite Hcol, length_app. simpl.
      replace (length st0 + 1 - 1)%nat with (length st0) by lia.
      rewrite take_app_length, IH by (rewrite length_insert; lia).
      replace (length st0 + 1 - S n)%nat with (length st0 - n)%nat by lia.
      rewrite (take_app_le st0 [card]) by lia. do 2 f_equal.
      apply list_eq. intros j.
      rewrite !list_lookup_imap, list_lookup_insert.
      destruct (decide (i = j /\ (i < length t)%nat)) as [[<- _]|Hne].
      * rewrite Hcol. simpl.
        rewrite decide_False, decide_True by lia.
        unfold dealtOnto. rewrite reverse_snoc, Nat.sub_diag. done.
      * destruct (t !! j) as [column|] eqn:Hj; simpl; [|done].
        assert (i <> j).
        { intros ->. apply Hne. split; [done|]. by eapply lookup_lt_Some. }
        repeat case_decide; try lia; [|done].
        unfold dealtOnto. rewrite reverse_snoc.
        by replace (j - i)%nat with (S (j - S i)) by lia.
    + apply last_None in Hlast as ->.
      rewrite IH by lia. simpl. do 2 f_equal.
      apply imap_ext. intros j column _. unfold dealtOnto.
      rewrite reverse_nil. by repeat case_decide.
Qed.

(** X1.  On ten columns none of which is empty, with cards in the stock, a
    deal pushes on column [j] the card at position [j] from the end of the
    stock, lying face up whatever it was in the stock (columns beyond the
    stock get nothing), cuts up to ten cards off the end of the stock and
    counts one move; score, foundations, selection and win flag stay. *)
Theorem handleDeal_deals s gs :
  gameState s = Some gs -> length (tableau gs) = 10%nat ->
  stock gs <> [] -> [] ∉ tableau gs ->
  handleDeal s
  = Returns
      {| gameState :=
           Some {| tableau :=
                     imap (fun j column =>
                             match reverse (stock gs) !! j with
                             | Some card =>
                                 column ++ [{| id := id card; suit := suit card;
                                               rank := rank card; isFaceUp := true |}]
                             | None => column
                             end) (tableau gs);
                   stock := take (length (stock gs) - 10) (stock gs);
                   foundations := foundations gs;
                   moves := moves gs + 1;
                   score := score gs |};
         selectedCards := selectedCards s;
         gameWon := gameWon s |} [].
Proof.
  intros Hgs Hlen Hstock Hfull. unfold handleDeal. rewrite Hgs.
  rewrite bool_decide_eq_false_2 by (by destruct (stock gs)).
  assert (existsb (fun col : Column => bool_decide (length col = 0%nat))
                  (tableau gs) = false) as ->.
  { apply not_true_is_false. intros (col & Hin & Hcol)%existsb_exists.
    apply bool_decide_eq_true in Hcol. apply Hfull.
    destruct col; [|done]. by apply list_elem_of_In. }
  rewrite dealLoop_result by lia. unfold setGameState. do 4 f_equal.
  apply imap_ext. intros j column Hj. apply lookup_lt_Some in Hj.
  rewrite decide_True by lia. by rewrite Nat.sub_0_r.
Qed.

(** ** What each handler can do to the state *)

Lemma dealLoop_Some (n i : nat) (st : list Card) t st' t' :
  dealLoop n i st t = Some (st', t') ->
  st' = take (length st - n) st /\ length t' = length t.
Proof.
  revert i st t. induction n as [|n IH]; intros i st t; simpl.
  - intros [= <- <-]. by rewrite Nat.sub_0_r, firstn_all.
  - destruct (last st) as [card|] eqn:Hlast.
    + apply last_Some in Hlast as [st0 ->].
      destruct (t !! i) as [col|]; [|done].
      intros [-> Hlen]%IH. rewrite length_insert in Hlen. split; [|done].
      rewrite !length_app. simpl.
      replace (length st0 + 1 - 1)%nat with (length st0) by lia.
      rewrite take_app_length.
      replace (length st0 + 1 - S n)%nat with (length st0 - n)%nat by lia.
      by rewrite (take_app_le st0 [card]) by lia.
    + apply last_None in Hlast as ->. intros [-> Hlen]%IH. by rewrite !take_nil.
Qed.

Lemma handleDeal_outcome s s' alerts gs :
  handleDeal s = Returns s' alerts -> gameState s = Some gs ->
  selectedCards s' = selectedCards s /\ gameWon s' = gameWon s
  /\ (gameState s' = Some gs
      \/ exists t',
           alerts = [] /\ stock gs <> [] /\ length t' = length (tableau gs)
           /\ dealLoop 10 0 (stock gs) (tableau gs)
              = Some (take (length (stock gs) - 10) (stock gs), t')
           /\ gameState s'
              = Some {| tableau := t';
                        stock := take (length (stock gs) - 10) (stock gs);
                        foundations := foundations gs;
                        moves := moves gs + 1;
                        score := score gs |}).
Proof.
  unfold handleDeal. intros Hret Hgs. rewrite Hgs in Hret.
  destruct (bool_decide (length (stock gs) = 0%nat)) eqn:Hstock;
    [simplify_eq; by auto|].
  destruct (existsb _ _); [simplify_eq; by auto|].
  destruct (dealLoop _ _ _ _) as [[st' t']|] eqn:Hloop; [|done].
  destruct (dealLoop_Some _ _ _ _ _ _ Hloop) as [-> Hlen].
  simplify_eq. split_and!; [done|done|]. right. exists t'.
  split_and!; try done.
  apply bool_decide_eq_false in Hstock. intros Hnil. by rewrite Hnil in Hstock.
Qed.

Lemma handleCardClick_outcome s s' alerts (colIdx cardIdx : nat) gs :
  handleCardClick colIdx cardIdx s = Returns s' alerts -> gameState s = Some gs ->
  alerts = []
  /\ ((gameState s' = Some gs /\ gameWon s' = gameWon s)
      \/ exists sel sourceCol column,
           selectedCards s = Some sel /\ colIndex sel <> colIdx
           /\ tableau gs !! colIndex sel = Some sourceCol
           /\ tableau gs !! colIdx = Some column
           /\ isValidMove (drop (cardIndex sel) sourceCol) (last column) = true
           /\ gameState s' = Some (afterMoveOnto gs sel colIdx sourceCol)
           /\ selectedCards s' = None
           /\ gameWon s'
              = if bool_decide (foundations (afterMoveOnto gs sel colIdx sourceCol) = 8)
                then true else gameWon s).
Proof.
  unfold handleCardClick. intros Hret Hgs. rewrite Hgs in Hret.
  destruct (tableau gs !! colIdx) as [column|] eqn:Hcol; [|done].
  destruct (selectedCards s) as [sel|] eqn:Hsel.
  - destruct (bool_decide (colIndex sel = colIdx)) eqn:Hsame.
    { simplify_eq. simpl. by auto. }
    apply bool_decide_eq_false in Hsame.
    destruct (tableau gs !! colIndex sel) as [sourceCol|] eqn:Hsrc; [|done].
    destruct (isValidMove _ _) eqn:Hvalid.
    + injection Hret as <- <-. split; [done|]. right.
      exists sel, sourceCol, column. unfold afterMoveOnto.
      split_and!; try done; by destruct (bool_decide _).
    + destruct (canMoveSequence _); simplify_eq; simpl; by auto.
  - destruct (canMoveSequence _); simplify_eq; simpl; by auto.
Qed.

Lemma handleEmptyColumnClick_outcome s s' alerts (colIdx : nat) gs :
  handleEmptyColumnClick colIdx s = Returns s' alerts -> gameState s = Some gs ->
  alerts = [] /\ gameWon s' = gameWon s
  /\ ((gameState s' = Some gs /\ selectedCards s = None /\ s' = s)
      \/ exists sel sourceCol,
           selectedCards s = Some sel
           /\ tableau gs !! colIndex sel = Some sourceCol
           /\ selectedCards s' = None
           /\ gameState s'
              = Some {| tableau := moveToEmpty (colIndex sel) (cardIndex sel) colIdx
                                     (drop (cardIndex sel) sourceCol) (tableau gs);
                        stock := stock gs;
                        foundations := foundations gs;
                        moves := moves gs + 1;
                        score := score gs - 1 |}).
Proof.
  unfold handleEmptyColumnClick. intros Hret Hgs. rewrite Hgs in Hret.
  destruct (selectedCards s) as [sel|] eqn:Hsel.
  2:{ simplify_eq. split_and!; [done|done|]. left. by split_and!. }
  destruct (tableau gs !! colIndex sel) as [sourceCol|] eqn:Hsrc; [|done].
  simplify_eq. split_and!; [done|done|]. right. by exists sel, sourceCol.
Qed.

Lemma length_filter_removed t :
  length (filter (fun r => removed r = true) (checkAndRemoveCompleteSet <$> t))
  = length (filter (fun column => removed (checkAndRemoveCompleteSet column) = true) t).
Proof.
  induction t as [|c t IH]; [done|].
  rewrite fmap_cons, !filter_cons.
  destruct (removed (checkAndRemoveCompleteSet c)) eqn:E.
  - rewrite !decide_True by done. simpl. by rewrite IH.
  - by rewrite !decide_False by done.
Qed.

Lemma handle_keeps_game s e s' alerts gs :
  handle e s = Returns s' alerts -> gameState s = Some gs ->
  exists gs', gameState s' = Some gs'.
Proof.
  destruct e as [|colIdx cardIdx|colIdx]; simpl; intros Hret Hgs.
  - destruct (handleDeal_outcome _ _ _ _ Hret Hgs)
      as (_ & _ & [?|(t' & _ & _ & _ & _ & ?)]); by eauto.
  - destruct (handleCardClick_outcome _ _ _ _ _ _ Hret Hgs)
      as (_ & [[? _]|(? & ? & ? & _ & _ & _ & _ & _ & ? & _)]); by eauto.
  - destruct (handleEmptyColumnClick_outcome _ _ _ _ _ Hret Hgs)
      as (_ & _ & [[? _]|(? & ? & _ & _ & _ & ?)]); by eauto.
Qed.

(** X2.  A handler that returns leaves the game state as it was or makes
    exactly one move of it: [moves] goes up by one, [foundations] does not go
    down, the stock loses cards only from its end, the number of columns
    stays, and the score changes by 100 for each set removed, less one point
    unless the move was a deal. *)
Theorem handle_changes s e s' alerts gs :
  handle e s = Returns s' alerts -> gameState s = Some gs ->
  exists gs',
    gameState s' = Some gs'
    /\ (gs' = gs
        \/ (moves gs' = moves gs + 1
            /\ foundations gs <= foundations gs'
            /\ stock gs' `prefix_of` stock gs
            /\ length (tableau gs') = length (tableau gs)
            /\ score gs'
               = score gs + 100 * (foundations gs' - foundations gs)
                 - match e with Deal => 0 | _ => 1 end)).
Proof.
  destruct e as [|colIdx cardIdx|colIdx]; simpl; intros Hret Hgs.
  - destruct (handleDeal_outcome _ _ _ _ Hret Hgs)
      as (_ & _ & [?|(t' & _ & _ & Hlen & _ & ?)]); [by eauto|].
    eexists. split; [done|]. right. simpl.
    split_and!; [done|lia|apply prefix_take|done|lia].
  - destruct (handleCardClick_outcome _ _ _ _ _ _ Hret Hgs)
      as (_ & [[? _]|(sel & sourceCol & column & _ & _ & _ & _ & _ & ? & _)]);
      [by eauto|].
    eexists. split; [done|]. right. unfold afterMoveOnto, moveOnto. simpl.
    split_and!; [done|lia|done| |lia].
    by rewrite !length_fmap, length_imap.
  - destruct (handleEmptyColumnClick_outcome _ _ _ _ _ Hret Hgs)
      as (_ & _ & [[? _]|(sel & sourceCol & _ & _ & _ & ?)]); [by eauto|].
    eexists. split; [done|]. right. unfold moveToEmpty. simpl.
    split_and!; [done|lia|done| |lia].
    by rewrite length_imap.
Qed.

Lemma handle_changes_witness :
  exists gs,
    gameState sampleState = Some gs
    /\ exists gs',
         gameState sampleAfterMove = Some gs'
         /\ (gs' = gs
             \/ (moves gs' = moves gs + 1
                 /\ foundations gs <= foundations gs'
                 /\ stock gs' `prefix_of` stock gs
                 /\ length (tableau gs') = length (tableau gs)
                 /\ score gs' = score gs + 100 * (foundations gs' - foundations gs) - 1)).
Proof.
  eexists. split; [reflexivity|].
  apply (handle_changes sampleState (CardClick 3 6) sampleAfterMove []).
  - by_evaluation.
  - reflexivity.
Defined.

(** ** Invariants of a session *)

Lemma topFaceUp_exposeTop column : topFaceUp (exposeTop column).
Proof.
  intros c. destruct (last column) as [top|] eqn:Hlast.
  - apply last_Some in Hlast as [init ->].
    rewrite exposeTop_snoc, last_snoc. by intros [= <-].
  - by apply last_None in Hlast as ->.
Qed.

Lemma topFaceUp_app column cards :
  topFaceUp column -> topFaceUp cards -> topFaceUp (column ++ cards).
Proof.
  intros Hcol Hcards c. rewrite last_app.
  destruct (last cards) as [top|] eqn:Hlast.
  - intros [= <-]. by apply Hcards.
  - apply Hcol.
Qed.

Lemma topFaceUp_drop (n : nat) column : topFaceUp column -> topFaceUp (drop n column).
Proof.
  intros Hcol c Hlast. apply Hcol.
  rewrite <-(take_drop n column), last_app. by rewrite Hlast.
Qed.

Lemma topFaceUp_checked column :
  topFaceUp column -> topFaceUp (newColumn (checkAndRemoveCompleteSet column)).
Proof.
  intros Hcol. unfold checkAndRemoveCompleteSet.
  destruct (bool_decide _ && isCompleteSet _); simpl; [|done].
  apply topFaceUp_exposeTop.
Qed.

(** X3.  In every reachable state the top card of every column that has
    cards is face up. *)
Theorem top_cards_face_up s gs :
  reachable s -> gameState s = Some gs -> Forall topFaceUp (tableau gs).
Proof.
  intros Hs. revert gs.
  induction Hs as [|deck Hdeck|s e s' alerts Hs IH Hen Hret]; intros gs' Hgs'.
  - done.
  - apply (inj Some) in Hgs' as <-. cbn [tableau dealInitial dealtTableau].
    apply Forall_fmap, Forall_forall. intros column _. apply topFaceUp_exposeTop.
  - assert (is_Some (gameState s)) as [gs Hgs].
    { unfold enabled in Hen. by destruct (gameState s). }
    specialize (IH gs Hgs).
    destruct (reachable_wellFormed s Hs gs Hgs) as (Hlen & _).
    destruct e as [|colIdx cardIdx|colIdx]; simpl in Hret.
    + destruct (handleDeal_outcome _ _ _ _ Hret Hgs)
        as (_ & _ & [?|(t' & _ & _ & _ & Hloop & ?)]); simplify_eq; [done|].
      rewrite dealLoop_result in Hloop by lia. simplify_eq. simpl.
      apply Forall_lookup. intros j column.
      rewrite list_lookup_imap.
      destruct (tableau gs !! j) as [old|] eqn:Hj; simpl; [|done].
      intros [= <-]. pose proof (Forall_lookup_1 _ _ _ _ IH Hj) as Hold.
      case_decide; [|done]. unfold dealtOnto.
      destruct (reverse (stock gs) !! _); [|done].
      apply topFaceUp_app; [done|]. by intros ? [= <-].
    + destruct (handleCardClick_outcome _ _ _ _ _ _ Hret Hgs)
        as (_ & [[? _]|(sel & sourceCol & column & _ & _ & Hsrc & _ & _ & ? & _)]);
        simplify_eq; [done|].
      unfold afterMoveOnto, moveOnto. simpl.
      pose proof (Forall_lookup_1 _ _ _ _ IH Hsrc) as Hsource.
      apply Forall_fmap, Forall_fmap, Forall_lookup. intros j col.
      rewrite list_lookup_imap.
      destruct (tableau gs !! j) as [old|] eqn:Hj; simpl; [|done].
      intros [= <-]. pose proof (Forall_lookup_1 _ _ _ _ IH Hj) as Hold.
      apply topFaceUp_checked. repeat case_bool_decide.
      * apply topFaceUp_exposeTop.
      * apply topFaceUp_app; [done|]. by apply topFaceUp_drop.
      * done.
    + destruct (handleEmptyColumnClick_outcome _ _ _ _ _ Hret Hgs)
        as (_ & _ & [[? _]|(sel & sourceCol & _ & Hsrc & _ & ?)]);
        simplify_eq; [done|].
      unfold moveToEmpty. simpl.
      pose proof (Forall_lookup_1 _ _ _ _ IH Hsrc) as Hsource.
      apply Forall_lookup. intros j col.
      rewrite list_lookup_imap.
      destruct (tableau gs !! j) as [old|] eqn:Hj; simpl; [|done].
      intros [= <-]. pose proof (Forall_lookup_1 _ _ _ _ IH Hj) as Hold.
      repeat case_bool_decide.
      * apply topFaceUp_exposeTop.
      * by apply topFaceUp_drop.
      * done.
Qed.

Lemma top_cards_face_up_witness :
  exists gs, gameState sampleState = Some gs /\ Forall topFaceUp (tableau gs).
Proof.
  eexists. split; [reflexivity|].
  exact (top_cards_face_up sampleState _ sampleState_reachable eq_refl).
Defined.

Lemma handleDeal_deals_witness :
  handleDeal (initGame sampleDeck) = Returns dealtOnceState []
  /\ exists gs column,
       gameState dealtOnceState = Some gs
       /\ tableau gs !! 0%nat = Some column
       /\ last column
          = Some {| id := "card-103"; suit := Spades; rank := RA; isFaceUp := true |}.
Proof.
  split.
  - refine (eq_trans (handleDeal_deals (initGame sampleDeck) _ eq_refl _ _ _) _).
    + reflexivity.
    + intros H. discriminate H.
    + intros Hin. apply list_elem_of_In in Hin. vm_compute in Hin.
      repeat (destruct Hin as [Hin|Hin]; [discriminate Hin|]). exact Hin.
    + by_evaluation.
  - eexists _, _. split_and!; reflexivity.
Defined.

(** X4.  In every reachable state [foundations] lies between 0 and 8, and the
    win flag is up exactly when it is 8. *)
Theorem win_flag_invariant s gs :
  reachable s -> gameState s = Some gs ->
  0 <= foundations gs <= 8 /\ (gameWon s = true <-> foundations gs = 8).
Proof.
  intros Hs. revert gs.
  assert (forall s gs, reachable s -> gameState s = Some gs -> foundations gs <= 8)
    as Hupper.
  { intros s0 gs0 Hs0 Hgs0.
    destruct (reachable_wellFormed s0 Hs0 gs0 Hgs0) as (_ & Htotal & _).
    unfold cardTotal, tableauSize in Htotal. lia. }
  induction Hs as [|deck Hdeck|s e s' alerts Hs IH Hen Hret]; intros gs' Hgs'.
  - done.
  - apply (inj Some) in Hgs' as <-. simpl. split; [lia|]. split; [done|lia].
  - assert (is_Some (gameState s)) as [gs Hgs].
    { unfold enabled in Hen. by destruct (gameState s). }
    destruct (IH gs Hgs) as [Hlow Hwon].
    pose proof (Hupper s' gs' (reach_event s e s' alerts Hs Hen Hret) Hgs') as Hup'.
    destruct e as [|colIdx cardIdx|colIdx]; simpl in Hret.
    + destruct (handleDeal_outcome _ _ _ _ Hret Hgs)
        as (_ & Hflag & [?|(t' & _ & _ & _ & _ & ?)]); simplify_eq;
        rewrite Hflag; simpl; by split.
    + destruct (handleCardClick_outcome _ _ _ _ _ _ Hret Hgs)
        as (_ & [[? Hflag]|(sel & sourceCol & column & _ & _ & _ & _ & _ & ? & _ & Hflag)]);
        simplify_eq; rewrite Hflag; [by split|].
      unfold afterMoveOnto in *. simpl in *. split; [lia|].
      case_bool_decide; [done|]. rewrite Hwon. lia.
    + destruct (handleEmptyColumnClick_outcome _ _ _ _ _ Hret Hgs)
        as (_ & Hflag & [[? _]|(sel & sourceCol & _ & _ & _ & ?)]); simplify_eq;
        rewrite Hflag; simpl; by split.
Qed.

Lemma win_flag_invariant_witness :
  exists gs,
    gameState sampleAfterMove = Some gs
    /\ 0 <= foundations gs <= 8
    /\ (gameWon sampleAfterMove = true <-> foundations gs = 8).
Proof.
  eexists. split; [reflexivity|].
  apply (win_flag_invariant sampleAfterMove); [|reflexivity].
  apply (play_reachable (sampleEvents ++ [CardClick 3 6]) (initGame sampleDeck)).
  - apply reach_init, sampleDeck_length.
  - by_evaluation.
Defined.

Lemma stock_length_tens s gs :
  reachable s -> gameState s = Some gs ->
  exists k : nat, (k <= 5)%nat /\ length (stock gs) = (10 * k)%nat.
Proof.
  intros Hs. revert gs.
  induction Hs as [|deck Hdeck|s e s' alerts Hs IH Hen Hret]; intros gs' Hgs'.
  - done.
  - apply (inj Some) in Hgs' as <-. exists 5%nat. split; [done|].
    cbn [stock dealInitial remainingStock]. rewrite length_drop. lia.
  - assert (is_Some (gameState s)) as [gs Hgs].
    { unfold enabled in Hen. by destruct (gameState s). }
    destruct (IH gs Hgs) as (k & Hk & Hlen).
    destruct e as [|colIdx cardIdx|colIdx]; simpl in Hret.
    + destruct (handleDeal_outcome _ _ _ _ Hret Hgs)
        as (_ & _ & [?|(t' & _ & Hne & _ & _ & ?)]); simplify_eq; [by eauto|].
      exists (k - 1)%nat. simpl. rewrite length_take.
      assert (length (stock gs) <> 0%nat) by by destruct (stock gs).
      lia.
    + destruct (handleCardClick_outcome _ _ _ _ _ _ Hret Hgs)
        as (_ & [[? _]|(sel & sourceCol & column & _ & _ & _ & _ & _ & ? & _)]);
        simplify_eq; by eauto.
    + destruct (handleEmptyColumnClick_outcome _ _ _ _ _ Hret Hgs)
        as (_ & _ & [[? _]|(sel & sourceCol & _ & _ & _ & ?)]);
        simplify_eq; by eauto.
Qed.

Lemma stockPiles_tens gs (k : nat) :
  length (stock gs) = (10 * k)%nat -> stockPiles gs = k.
Proof.
  intros Hlen. unfold stockPiles. rewrite Hlen. symmetry.
  apply (Nat.div_unique _ 10 k 9); lia.
Qed.

(** X5.  In every reachable state the score is 500, plus 100 for each
    removed set, minus the moves that were not deals: the deals made so far
    (five less the piles left in the stock) are counted in [moves] and cost
    nothing. *)
Theorem score_counts_deals s gs :
  reachable s -> gameState s = Some gs ->
  score gs
  = 500 + 100 * foundations gs - (moves gs - (5 - Z.of_nat (stockPiles gs))).
Proof.
  intros Hs Hgs.
  destruct (stock_length_tens s gs Hs Hgs) as (k & Hk & Hlen).
  pose proof (score_invariant s gs Hs Hgs) as Hscore.
  rewrite (stockPiles_tens gs k Hlen). lia.
Qed.

Lemma score_counts_deals_witness :
  exists gs, gameState sampleState = Some gs /\ score gs = 483.
Proof.
  eexists. split; [reflexivity|].
  exact (score_counts_deals sampleState _ sampleState_reachable eq_refl).
Defined.

(** X6.  In every reachable state the stock holds 0, 10, 20, 30, 40 or 50
    cards, and the board draws one card back for each deal that is left. *)
Theorem stock_in_tens s gs :
  reachable s -> gameState s = Some gs ->
  exists k : nat,
    (k <= 5)%nat /\ length (stock gs) = (10 * k)%nat /\ stockPiles gs = k.
Proof.
  intros Hs Hgs.
  destruct (stock_length_tens s gs Hs Hgs) as (k & Hk & Hlen).
  exists k. split_and!; [done|done|]. by apply stockPiles_tens.
Qed.

Lemma stock_in_tens_witness :
  exists gs k,
    gameState sampleState = Some gs
    /\ (k <= 5)%nat /\ length (stock gs) = (10 * k)%nat /\ stockPiles gs = k.
Proof.
  eexists. 
  destruct (stock_in_tens sampleState _ sampleState_reachable eq_refl)
    as (k & Hk).
  exists k. split; [reflexivity|exact Hk].
Defined.

(** X7.  In every reachable state a selection points at a card that lies on
    the tableau: its column exists and its index is inside the column. *)
Theorem selection_points_at_card s sel :
  reachable s -> selectedCards s = Some sel ->
  exists gs column,
    gameState s = Some gs
    /\ tableau gs !! colIndex sel = Some column
    /\ (cardIndex sel < length column)%nat.
Proof.
  intros Hs Hsel.
  assert (is_Some (gameState s)) as [gs Hgs].
  { destruct Hs as [|deck Hdeck|s e s' alerts Hs Hen Hret]; [done|by eexists|].
    unfold enabled in Hen. destruct (gameState s) as [gs|] eqn:Hgs; [|done].
    destruct (handle_keeps_game _ _ _ _ _ Hret Hgs) as [gs' ?]. by exists gs'. }
  destruct (reachable_wellFormed s Hs gs Hgs) as (_ & _ & Hvalid).
  destruct (Hvalid sel Hsel) as (column & ? & ?). by exists gs, column.
Qed.

Lemma selection_points_at_card_witness :
  exists gs column,
    gameState sampleState = Some gs
    /\ tableau gs !! 0%nat = Some column /\ (18 < length column)%nat.
Proof.
  exact (selection_points_at_card sampleState {| colIndex := 0; cardIndex := 18 |}
           sampleState_reachable eq_refl).
Defined.

(** ** handleCardClick: moves and selections *)

(** X8.  With a selection in another column, a click on a card whose column
    top takes the selected suffix ([isValidMove]) moves it: the source column
    keeps what lay below with its new top card face up, the clicked column
    gets the suffix on top, every column is then checked once, each removed
    set adds one to [foundations] and 100 to the score, the move costs one
    point, the selection is cleared and the win flag goes up iff
    [foundations] is then 8.  Nothing asks whether the suffix is still a
    run. *)
Theorem handleCardClick_moves s gs sel sourceCol column (colIdx cardIdx : nat) :
  gameState s = Some gs -> selectedCards s = Some sel ->
  colIndex sel <> colIdx ->
  tableau gs !! colIndex sel = Some sourceCol ->
  tableau gs !! colIdx = Some column ->
  isValidMove (drop (cardIndex sel) sourceCol) (last column) = true ->
  let moved :=
    <[colIdx := column ++ drop (cardIndex sel) sourceCol]>
      (<[colIndex sel := exposeTop (take (cardIndex sel) sourceCol)]> (tableau gs)) in
  let removedCount :=
    Z.of_nat (length (filter (fun col => removed (checkAndRemoveCompleteSet col) = true)
                             moved)) in
  handleCardClick colIdx cardIdx s
  = Returns
      {| gameState :=
           Some {| tableau := (fun col => newColumn (checkAndRemoveCompleteSet col)) <$> moved;
                   stock := stock gs;
                   foundations := foundations gs + removedCount;
                   moves := moves gs + 1;
                   score := score gs + removedCount * 100 - 1 |};
         selectedCards := None;
         gameWon := if bool_decide (foundations gs + removedCount = 8)
                    then true else gameWon s |} [].
Proof.
  intros Hgs Hsel Hne Hsrc Hcol Hvalid. simpl. unfold handleCardClick.
  rewrite Hgs, Hcol, Hsel, bool_decide_eq_false_2, Hsrc, Hvalid by done.
  rewrite (moveOnto_inserts _ _ _ _ _ _ _ Hne Hsrc Hcol).
  rewrite length_filter_removed, <-list_fmap_compose.
  by destruct (bool_decide _).
Qed.

Lemma handleCardClick_moves_witness :
  (exists s', handleCardClick 6 5 staleState = Returns s' [])
  /\ exists gs sourceCol,
       gameState staleState = Some gs
       /\ tableau gs !! 2%nat = Some sourceCol
       /\ canMoveSequence (drop 5 sourceCol) = false.
Proof.
  split.
  - eexists.
    refine (handleCardClick_moves staleState _ _ _ _ 6 5 eq_refl eq_refl _ _ _ _).
    + intros H. discriminate H.
    + reflexivity.
    + reflexivity.
    + by_evaluation.
  - eexists _, _. split_and!; [reflexivity|reflexivity|by_evaluation].
Defined.

(** X9.  Selecting and deselecting undo each other: with nothing selected, a
    click on a card that heads a movable suffix selects it and leaves the game
    alone, and a next click on any card of the same column gives back the
    state before the first click. *)
Theorem select_then_deselect s gs column (colIdx cardIdx otherIdx : nat) :
  gameState s = Some gs -> selectedCards s = None ->
  tableau gs !! colIdx = Some column ->
  canMoveSequence (drop cardIdx column) = true ->
  exists s1,
    handleCardClick colIdx cardIdx s = Returns s1 []
    /\ selectedCards s1 = Some {| colIndex := colIdx; cardIndex := cardIdx |}
    /\ gameState s1 = Some gs
    /\ handleCardClick colIdx otherIdx s1 = Returns s [].
Proof.
  destruct s as [g sc won]. simpl. intros -> -> Hcol Hmovable.
  eexists. split_and!.
  - unfold handleCardClick. simpl. by rewrite Hcol, Hmovable.
  - done.
  - done.
  - unfold handleCardClick. simpl. rewrite Hcol.
    by rewrite bool_decide_eq_true_2.
Qed.

Lemma select_then_deselect_witness :
  exists s1,
    handleCardClick 0 5 (initGame sampleDeck) = Returns s1 []
    /\ selectedCards s1 = Some {| colIndex := 0; cardIndex := 5 |}
    /\ gameState s1 = gameState (initGame sampleDeck)
    /\ handleCardClick 0 2 s1 = Returns (initGame sampleDeck) [].
Proof.
  refine (select_then_deselect (initGame sampleDeck) _ _ 0 5 2 eq_refl eq_refl _ _).
  - reflexivity.
  - by_evaluation.
Defined.

(** ** handleEmptyColumnClick and handleDeal off the board's guards *)

(** X10.  [handleEmptyColumnClick] does not look at the column it is given:
    whatever lay there is replaced by the moving cards and is gone from the
    game, so that the cards in play drop by the length of that column.  Only
    the caller's test [column.length === 0] keeps cards from being lost. *)
Theorem handleEmptyColumnClick_overwrites s gs sel sourceCol destCol (colIdx : nat) :
  gameState s = Some gs -> selectedCards s = Some sel ->
  tableau gs !! colIndex sel = Some sourceCol ->
  tableau gs !! colIdx = Some destCol -> colIndex sel <> colIdx ->
  exists s' gs',
    handleEmptyColumnClick colIdx s = Returns s' []
    /\ gameState s' = Some gs'
    /\ tableau gs' !! colIdx = Some (drop (cardIndex sel) sourceCol)
    /\ cardTotal gs' = cardTotal gs - Z.of_nat (length destCol).
Proof.
  intros Hgs Hsel Hsrc Hdst Hne.
  eexists _, _. split_and!.
  - by apply (handleEmptyColumnClick_result s gs sel sourceCol destCol).
  - done.
  - simpl. apply list_lookup_insert_eq. rewrite length_insert.
    by eapply lookup_lt_Some.
  - unfold cardTotal, tableauSize. simpl.
    pose proof (sum_lengths_insert (tableau gs) (colIndex sel) sourceCol
                  (exposeTop (take (cardIndex sel) sourceCol)) Hsrc) as H1.
    pose proof (sum_lengths_insert
                  (<[colIndex sel := exposeTop (take (cardIndex sel) sourceCol)]> (tableau gs))
                  colIdx destCol (drop (cardIndex sel) sourceCol)) as H2.
    rewrite list_lookup_insert_ne in H2 by done. specialize (H2 Hdst).
    rewrite length_exposeTop, length_take in H1. rewrite length_drop in H2. lia.
Qed.

Lemma handleEmptyColumnClick_overwrites_witness :
  exists s' gs',
    handleEmptyColumnClick 1 sampleState = Returns s' []
    /\ gameState s' = Some gs'
    /\ length <$> tableau gs' !! 1%nat = Some 1%nat
    /\ cardTotal gs' = 98.
Proof.
  destruct (handleEmptyColumnClick_overwrites sampleState _ _ _ _ 1
              eq_refl eq_refl eq_refl eq_refl ltac:(discriminate))
    as (s' & gs' & Hret & Hgs' & Hcol & Htotal).
  exists s', gs'. split_and!; [exact Hret|exact Hgs'| |].
  - rewrite Hcol. reflexivity.
  - rewrite Htotal. reflexivity.
Defined.

(** The deal loop stops on a [TypeError] when the stock still has a card for
    a column that is not there. *)
Lemma dealLoop_TypeError (n i : nat) (st : list Card) t :
  (i <= length t < i + n)%nat -> (length t - i < length st)%nat ->
  dealLoop n i st t = None.
Proof.
  revert i st t. induction n as [|n IH]; intros i st t Hcols Hcards; [lia|].
  simpl. destruct (last st) as [card|] eqn:Hlast.
  - apply last_Some in Hlast as [st0 ->].
    destruct (t !! i) as [col|] eqn:Hcol; [|done].
    apply lookup_lt_Some in Hcol.
    apply IH; rewrite length_insert.
    + lia.
    + rewrite length_take, length_app in *. simpl in *. lia.
  - apply last_None in Hlast as ->. simpl in Hcards. lia.
Qed.

(** X11.  [handleDeal] relies on the tableau having a column for every card
    it deals: with fewer than ten columns, none of them empty, and more cards
    in the stock than there are columns, it stops on a [TypeError] and
    installs no state. *)
Theorem handleDeal_too_few_columns s gs :
  gameState s = Some gs -> [] ∉ tableau gs ->
  (length (tableau gs) < 10)%nat -> (length (tableau gs) < length (stock gs))%nat ->
  handleDeal s = TypeError.
Proof.
  intros Hgs Hfull Hcols Hcards. unfold handleDeal. rewrite Hgs.
  rewrite bool_decide_eq_false_2 by lia.
  assert (existsb (fun col : Column => bool_decide (length col = 0%nat))
                  (tableau gs) = false) as ->.
  { apply not_true_is_false. intros (col & Hin & Hcol)%existsb_exists.
    apply bool_decide_eq_true in Hcol. apply Hfull.
    destruct col; [|done]. by apply list_elem_of_In. }
  by rewrite dealLoop_TypeError by lia.
Qed.

Lemma handleDeal_too_few_columns_witness : handleDeal oneColumnState = TypeError.
Proof.
  refine (handleDeal_too_few_columns oneColumnState _ eq_refl _ _ _).
  - intros Hin. apply list_elem_of_In in Hin. simpl in Hin.
    destruct Hin as [Hin|Hin]; [discriminate Hin|exact Hin].
  - simpl. lia.
  - simpl. lia.
Defined.

(** ** Every card is in play once *)















(** ** Hidden cards lie below the visible ones *)

Lemma facesSorted_take (n : nat) column : facesSorted column -> facesSorted (take n column).
Proof.
  intros Hcol i j c1 c2 Hij [Hi _]%lookup_take_Some [Hj _]%lookup_take_Some.
  by apply (Hcol i j).
Qed.

Lemma facesSorted_snoc column c :
  facesSorted column -> isFaceUp c = true -> facesSorted (column ++ [c]).
Proof.
  intros Hcol Hc i j c1 c2 Hij Hi Hj Hup.
  apply lookup_app_Some in Hj as [Hj|[Hlen Hj]].
  - apply lookup_app_Some in Hi as [Hi|[Hlen _]].
    + by apply (Hcol i j c1 c2).
    + apply lookup_lt_Some in Hj. lia.
  - apply list_lookup_singleton_Some in Hj as [_ <-]. done.
Qed.

Lemma facesSorted_exposeTop column : facesSorted column -> facesSorted (exposeTop column).
Proof.
  intros Hcol. destruct (last column) as [top|] eqn:Hlast.
  - apply last_Some in Hlast as [init ->]. rewrite exposeTop_snoc.
    apply facesSorted_snoc; [|done].
    intros i j c1 c2 Hij Hi Hj. apply (Hcol i j c1 c2 Hij).
    + by apply lookup_app_l_Some.
    + by apply lookup_app_l_Some.
  - by apply last_None in Hlast as ->.
Qed.

Lemma facesSorted_app column cards :
  facesSorted column -> Forall (fun c => isFaceUp c = true) cards ->
  facesSorted (column ++ cards).
Proof.
  intros Hcol Hcards i j c1 c2 Hij Hi Hj Hup.
  apply lookup_app_Some in Hj as [Hj|[Hlen Hj]].
  - apply lookup_app_Some in Hi as [Hi|[Hlen _]].
    + by apply (Hcol i j c1 c2).
    + apply lookup_lt_Some in Hj. lia.
  - by apply (Forall_lookup_1 _ _ _ _ Hcards Hj).
Qed.

Lemma facesSorted_checked column :
  facesSorted column -> facesSorted (newColumn (checkAndRemoveCompleteSet column)).
Proof.
  intros Hcol. unfold checkAndRemoveCompleteSet.
  destruct (bool_decide _ && isCompleteSet _); simpl; [|done].
  by apply facesSorted_exposeTop, facesSorted_take.
Qed.

Lemma canMoveSequence_face_up cards :
  canMoveSequence cards = true -> Forall (fun c => isFaceUp c = true) cards.
Proof.
  destruct cards as [|first rest]; [done|]. simpl.
  intros [Hfirst [Hrest _]%isRunFrom_true]%andb_true_iff. by constructor.
Qed.

(** A click leaves a selection only where it found a movable suffix. *)
Lemma handleCardClick_selection s s' alerts (colIdx cardIdx : nat) gs sel' :
  handleCardClick colIdx cardIdx s = Returns s' alerts -> gameState s = Some gs ->
  selectedCards s' = Some sel' ->
  gameState s' = Some gs
  /\ exists column,
       tableau gs !! colIndex sel' = Some column
       /\ canMoveSequence (drop (cardIndex sel') column) = true.
Proof.
  unfold handleCardClick. intros Hret Hgs. rewrite Hgs in Hret.
  destruct (tableau gs !! colIdx) as [column|] eqn:Hcol; [|done].
  destruct (selectedCards s) as [sel|] eqn:Hsel.
  - destruct (bool_decide (colIndex sel = colIdx)); [by simplify_eq|].
    destruct (tableau gs !! colIndex sel) as [sourceCol|]; [|done].
    destruct (isValidMove _ _).
    + injection Hret as <- _. by destruct (bool_decide _).
    + destruct (canMoveSequence _) eqn:Hmovable; simplify_eq; simpl; [|done].
      intros [= <-]. simpl. by eauto.
  - destruct (canMoveSequence _) eqn:Hmovable; simplify_eq; simpl.
    + intros [= <-]. simpl. by eauto.
    + by rewrite Hsel.
Qed.

Lemma handle_faces s e s' alerts gs gs' :
  wellFormed s -> handle e s = Returns s' alerts ->
  gameState s = Some gs -> gameState s' = Some gs' ->
  Forall facesSorted (tableau gs) /\ selectionFaceUp (tableau gs) (selectedCards s) ->
  Forall facesSorted (tableau gs') /\ selectionFaceUp (tableau gs') (selectedCards s').
Proof.
  intros Hwf Hret Hgs Hgs' [Hcols Hsel].
  destruct (Hwf gs Hgs) as (Hlen & _).
  destruct e as [|colIdx cardIdx|colIdx]; simpl in Hret.
  - destruct (handleDeal_outcome _ _ _ _ Hret Hgs)
      as (Hsame & _ & [?|(t' & _ & _ & _ & Hloop & ?)]); simplify_eq;
      rewrite Hsame; [done|].
    rewrite dealLoop_result in Hloop by lia. simplify_eq. simpl. split.
    + apply Forall_lookup. intros j column. rewrite list_lookup_imap.
      destruct (tableau gs !! j) as [old|] eqn:Hj; simpl; [|done].
      intros [= <-]. pose proof (Forall_lookup_1 _ _ _ _ Hcols Hj) as Hold.
      case_decide; [|done]. unfold dealtOnto.
      destruct (reverse (stock gs) !! _); [|done]. by apply facesSorted_snoc.
    + intros x column Hx. rewrite list_lookup_imap.
      destruct (tableau gs !! colIndex x) as [old|] eqn:Hj; simpl; [|done].
      intros [= <-]. pose proof (Hsel x old Hx Hj) as Hold.
      case_decide; [|done]. unfold dealtOnto.
      destruct (reverse (stock gs) !! _); [|done].
      rewrite drop_app. apply Forall_app. split; [done|].
      apply Forall_drop. by repeat constructor.
  - destruct (handleCardClick_outcome _ _ _ _ _ _ Hret Hgs)
      as (_ & [[? _]|(sel & sourceCol & column & Hsel' & _ & Hsrc & _ & _ & ? & Hnone & _)]);
      simplify_eq.
    + split; [done|]. intros x col Hx Hcol.
      destruct (handleCardClick_selection _ _ _ _ _ _ _ Hret Hgs Hx)
        as (_ & col' & Hcol' & Hmovable).
      simplify_eq. by apply canMoveSequence_face_up.
    + rewrite Hnone. split; [|by intros x ?].
      unfold afterMoveOnto, moveOnto. simpl.
      pose proof (Hsel sel sourceCol Hsel' Hsrc) as Hmoving.
      apply Forall_fmap, Forall_fmap, Forall_lookup. intros j col.
      rewrite list_lookup_imap.
      destruct (tableau gs !! j) as [old|] eqn:Hj; simpl; [|done].
      intros [= <-]. pose proof (Forall_lookup_1 _ _ _ _ Hcols Hj) as Hold.
      apply facesSorted_checked. repeat case_bool_decide.
      * by apply facesSorted_exposeTop, facesSorted_take.
      * by apply facesSorted_app.
      * done.
  - destruct (handleEmptyColumnClick_outcome _ _ _ _ _ Hret Hgs)
      as (_ & _ & [[? Hnone]|(sel & sourceCol & Hsel' & Hsrc & Hnone & ?)]);
      simplify_eq.
    + destruct Hnone as [_ ->]. by split.
    + rewrite Hnone. split; [|by intros x ?].
      unfold moveToEmpty. simpl.
      pose proof (Hsel sel sourceCol Hsel' Hsrc) as Hmoving.
      apply Forall_lookup. intros j col. rewrite list_lookup_imap.
      destruct (tableau gs !! j) as [old|] eqn:Hj; simpl; [|done].
      intros [= <-]. pose proof (Forall_lookup_1 _ _ _ _ Hcols Hj) as Hold.
      repeat case_bool_decide.
      * by apply facesSorted_exposeTop, facesSorted_take.
      * by apply (facesSorted_app []).
      * done.
Qed.

Lemma play_faces events s s' gs gs' :
  reachable s -> play events s = Some s' ->
  gameState s = Some gs -> gameState s' = Some gs' ->
  Forall facesSorted (tableau gs) /\ selectionFaceUp (tableau gs) (selectedCards s) ->
  Forall facesSorted (tableau gs') /\ selectionFaceUp (tableau gs') (selectedCards s').
Proof.
  revert s gs. induction events as [|e events IH]; intros s gs Hs; simpl.
  - intros [= <-] Hgs Hgs'. by simplify_eq.
  - destruct (enabled e s) eqn:Hen; [|done].
    destruct (handle e s) as [s1 alerts|] eqn:Hret; [|done].
    intros Hplay Hgs Hgs' Hinv.
    destruct (handle_keeps_game _ _ _ _ _ Hret Hgs) as [gs1 Hgs1].
    apply (IH s1 gs1 (reach_event s e s1 alerts Hs Hen Hret) Hplay Hgs1 Hgs').
    by apply (handle_faces s e s1 alerts gs gs1 (reachable_wellFormed s Hs)).
Qed.

(** X13.  In a game played from a deck of 104 face-down cards no face-down
    card ever lies on a face-up card, and the selected cards are all face
    up. *)
Theorem hidden_cards_lie_below deck events s gs :
  length deck = 104%nat -> Forall (fun c => isFaceUp c = false) deck ->
  play events (initGame deck) = Some s -> gameState s = Some gs ->
  Forall facesSorted (tableau gs) /\ selectionFaceUp (tableau gs) (selectedCards s).
Proof.
  intros Hdeck Hdown Hplay Hgs.
  refine (play_faces events (initGame deck) s _ gs
            (reach_init deck Hdeck) Hplay eq_refl Hgs _).
  split; [|by intros x column].
  cbn [tableau dealInitial dealtTableau].
  apply Forall_fmap. eapply Forall_impl; [by apply Forall_reshape|].
  intros column Hcolumn. apply facesSorted_exposeTop.
  intros i j c1 c2 _ Hi _ Hup.
  pose proof (Forall_lookup_1 _ _ _ _ Hcolumn Hi) as Hc1. simpl in Hc1. congruence.
Qed.

Lemma hidden_cards_lie_below_witness :
  exists gs,
    gameState sampleState = Some gs
    /\ Forall facesSorted (tableau gs)
    /\ selectionFaceUp (tableau gs) (selectedCards sampleState).
Proof.
  eexists. split; [reflexivity|].
  refine (hidden_cards_lie_below sampleDeck sampleEvents sampleState _
            sampleDeck_length _ sampleState_played eq_refl).
  apply (bool_decide_unpack _). by_evaluation.
Defined.

End handlers.
